(** * bitaccountability: boolean circuits, their fold, and the identity lift

    A shallow embedding of [src/main.py].  The Python program defines four
    frozen dataclasses ([Input], [NOT], [AND], [OR]), each with an [fmap]
    method, a catamorphism [fold], a leaf rewriter [map_inputs], a few
    algebras, and a lift [uniquify_algebra] that threads UUIDs through an
    algebra.  Everything here is executable. *)

From Stdlib Require Import ZArith List Bool String Ascii Lia.
From Stdlib Require Import Floats.SpecFloat.
Import ListNotations.

Set Implicit Arguments.

Local Open Scope Z_scope.

(** ** Node kinds *)

(** [Gates[A] = Input[A] | NOT[A] | AND[A] | OR[A]]: the one-level view, the
    argument type of every algebra.  Field names follow the dataclasses. *)
Inductive Gates (A : Type) : Type :=
| Input (x : A)
| NOT (x : A)
| AND (x y : A)
| OR (x y : A).

Arguments Input {A} x.
Arguments NOT {A} x.
Arguments AND {A} x y.
Arguments OR {A} x y.

(** The four [fmap] methods, one per class. *)
Definition fmap {A B : Type} (f : A -> B) (g : Gates A) : Gates B :=
  match g with
  | Input x => Input (f x)
  | NOT x => NOT (f x)
  | AND x y => AND (f x) (f y)
  | OR x y => OR (f x) (f y)
  end.

(** [g.__dataclass_fields__] read off with [g.__getattribute__]: the slot
    values of a gate in declaration order. *)
Definition fields {A : Type} (g : Gates A) : list A :=
  match g with
  | Input x => [x]
  | NOT x => [x]
  | AND x y => [x; y]
  | OR x y => [x; y]
  end.

(** The class of a gate, without its slots. *)
Inductive kind : Type := KInput | KNOT | KAND | KOR.

Definition kind_of {A : Type} (g : Gates A) : kind :=
  match g with
  | Input _ => KInput
  | NOT _ => KNOT
  | AND _ _ => KAND
  | OR _ _ => KOR
  end.

(** [RecGates[A] = Input[A] | NOT[RecGates[A]] | AND[RecGates[A]] |
    OR[RecGates[A]]]: the recursive view.  Python reuses the same four
    classes at a recursive slot type; here the tree has constructors of its
    own, prefixed with [R]. *)
Inductive RecGates (A : Type) : Type :=
| RInput (x : A)
| RNOT (x : RecGates A)
| RAND (x y : RecGates A)
| ROR (x y : RecGates A).

Arguments RInput {A} x.
Arguments RNOT {A} x.
Arguments RAND {A} x y.
Arguments ROR {A} x y.

Definition XOR {A : Type} (x y : RecGates A) : RecGates A :=
  ROR (RAND x (RNOT y)) (RAND (RNOT x) y).

Definition EQ {A : Type} (x y : RecGates A) : RecGates A :=
  RAND (ROR x (RNOT y)) (ROR (RNOT x) y).

(** ** fold and map_inputs *)

(** A [NOT], [AND] or [OR] object whose slots hold trees is itself a tree of
    [RecGates].  ([Input] holds a payload, never a tree; that case is not
    reached below.) *)
Definition as_tree {A : Type} (g : Gates (RecGates A)) : RecGates A :=
  match g with
  | Input t => t
  | NOT x => RNOT x
  | AND x y => RAND x y
  | OR x y => ROR x y
  end.

(** [fold]: a leaf goes to the algebra as it is; any other node [g] is
    first mapped by [g.fmap(partial(fold, f_algebra))] and the resulting
    one-level gate is handed to the algebra. *)
Fixpoint fold {A : Type} (f_algebra : Gates A -> A) (g : RecGates A) : A :=
  match g with
  | RInput x => f_algebra (Input x)
  | RNOT x => f_algebra (fmap (fold f_algebra) (NOT x))
  | RAND x y => f_algebra (fmap (fold f_algebra) (AND x y))
  | ROR x y => f_algebra (fmap (fold f_algebra) (OR x y))
  end.

(** [map_inputs]: [g.fmap(f)] at a leaf, [g.fmap(partial(map_inputs, f))]
    at any other node. *)
Fixpoint map_inputs {A B : Type} (f : A -> B) (g : RecGates A) : RecGates B :=
  match g with
  | RInput x => RInput (f x)
  | RNOT x => as_tree (fmap (map_inputs f) (NOT x))
  | RAND x y => as_tree (fmap (map_inputs f) (AND x y))
  | ROR x y => as_tree (fmap (map_inputs f) (OR x y))
  end.

(** ** Algebras *)

(** On [bool] operands Python's [x and y] is [y] when [x] holds and [x]
    otherwise, and [x or y] is [x] when [x] holds and [y] otherwise. *)
Definition boolean_algebra (g : Gates bool) : bool :=
  match g with
  | Input x => x
  | NOT x => negb x
  | AND x y => if x then y else x
  | OR x y => if x then x else y
  end.

Definition example {A : Type} (x y z : A) : RecGates A :=
  let x_input := RInput x in
  let y_input := RInput y in
  let z_input := RInput z in
  EQ (RAND x_input (ROR (RAND x_input y_input) z_input)) (RNOT z_input).

(** ** Floats

    A Python [float] is an IEEE 754 binary64 value; it is modelled by the
    standard library's [spec_float] with 53 bits of precision, whose
    operations round to nearest, ties to even. *)
Module Float.

Definition float : Type := spec_float.

Definition prec : Z := 53.
Definition emax : Z := 1024.

Definition sub (x y : float) : float := SFsub prec emax x y.
Definition mul (x y : float) : float := SFmul prec emax x y.

(** The literals [0.0] and [1.0]. *)
Definition zero : float := S754_zero false.
Definition one : float := S754_finite false 4503599627370496 (-52).

(** [float(n)] for a Python [int] that is exactly representable. *)
Definition of_int (n : Z) : float :=
  match n with
  | Z0 => zero
  | Zpos p => binary_normalize prec emax n 0 false
  | Zneg p => binary_normalize prec emax n 0 true
  end.

(** The literals [0.3] and [0.7]: the binary64 values nearest to them,
    [0x1.3333333333333p-2] and [0x1.6666666666666p-1]. *)
Definition lit_0_3 : float := S754_finite false 5404319552844595 (-54).
Definition lit_0_7 : float := S754_finite false 6305039478318694 (-53).

End Float.

Import Float.

(** [1 - x] with [x] a float: the int [1] is converted to [1.0] first. *)
Definition float_algebra (g : Gates float) : float :=
  match g with
  | Input x => x
  | NOT x => sub (of_int 1) x
  | AND x y => mul x y
  | OR x y => sub (of_int 1) (mul (sub (of_int 1) x) (sub (of_int 1) y))
  end.

(** [derivative_algebra] is typed [-> Any]: it returns an [int] for the
    unary kinds and a pair of floats for the binary kinds. *)
Inductive derivative : Type :=
| DInt (n : Z)
| DPair (fst_ snd_ : float).

Definition derivative_algebra (g : Gates float) : derivative :=
  match g with
  | Input x => DInt 1
  | NOT x => DInt (-1)
  | AND x y => DPair y x
  | OR x y => DPair (sub (of_int 1) y) (sub (of_int 1) x)
  end.

Definition bool_to_float (b : bool) : float :=
  if b then one else zero.

(** ** Bytes and SHA-1

    [uuid5] hashes with [hashlib.sha1].  A byte is a [Z] in [0, 256); a word
    is a [Z] in [0, 2^32), with the wrap-around written out. *)
Module SHA1.

Definition bytes : Type := list Z.

(** [int.from_bytes(bs, "big")]. *)
Definition from_bytes (bs : bytes) : Z :=
  fold_left (fun acc b => Z.lor (Z.shiftl acc 8) b) bs 0.

(** [n.to_bytes(len, "big")] for [0 <= n < 256^len]. *)
Definition to_bytes (len : nat) (n : Z) : bytes :=
  map (fun i => Z.land (Z.shiftr n (8 * Z.of_nat i)) 255) (rev (seq 0 len)).

Definition mask32 : Z := 4294967295.
Definition add32 (a b : Z) : Z := Z.land (a + b) mask32.
Definition rotl32 (n a : Z) : Z :=
  Z.land (Z.lor (Z.shiftl a n) (Z.shiftr a (32 - n))) mask32.

(** Message padding: a [0x80] byte, zeros up to 56 modulo 64, and the bit
    length on eight bytes. *)
Definition pad (msg : bytes) : bytes :=
  let len := Z.of_nat (List.length msg) in
  let zeros := Z.to_nat ((55 - len) mod 64) in
  (msg ++ [128] ++ repeat 0 zeros ++ to_bytes 8 (8 * len))%list.

(** Cut a list into pieces of [n] elements; [fuel] bounds the number of
    pieces. *)
Fixpoint chunks {X : Type} (fuel n : nat) (l : list X) : list (list X) :=
  match fuel, l with
  | O, _ => []
  | _, [] => []
  | S fuel', _ => firstn n l :: chunks fuel' n (skipn n l)
  end.

Definition words_of (block : bytes) : list Z :=
  map from_bytes (chunks 16 4 block).

(** The message schedule, newest word first while it is being extended. *)
Fixpoint extend (n : nat) (w : list Z) : list Z :=
  match n with
  | O => w
  | S n' =>
      let x := Z.lxor (Z.lxor (nth 2 w 0) (nth 7 w 0))
                      (Z.lxor (nth 13 w 0) (nth 15 w 0)) in
      extend n' (rotl32 1 x :: w)
  end.

Definition schedule (block : bytes) : list Z :=
  rev (extend 64 (rev (words_of block))).

Record state : Type := mkState { ha : Z; hb : Z; hc : Z; hd : Z; he : Z }.

Definition init : state :=
  mkState 1732584193 4023233417 2562383102 271733878 3285377520.

Definition f_k (t : nat) (b c d : Z) : Z * Z :=
  if Nat.ltb t 20 then
    (Z.lor (Z.land b c) (Z.land (Z.land (Z.lnot b) mask32) d), 1518500249)
  else if Nat.ltb t 40 then
    (Z.lxor (Z.lxor b c) d, 1859775393)
  else if Nat.ltb t 60 then
    (Z.lor (Z.lor (Z.land b c) (Z.land b d)) (Z.land c d), 2400959708)
  else
    (Z.lxor (Z.lxor b c) d, 3395469782).

Definition round (s : state) (tw : nat * Z) : state :=
  let '(f, k) := f_k (fst tw) (hb s) (hc s) (hd s) in
  let temp :=
    add32 (add32 (add32 (add32 (rotl32 5 (ha s)) f) (he s)) k) (snd tw) in
  mkState temp (ha s) (rotl32 30 (hb s)) (hc s) (hd s).

Definition compress (h : state) (block : bytes) : state :=
  let s := fold_left round (combine (seq 0 80) (schedule block)) h in
  mkState (add32 (ha h) (ha s)) (add32 (hb h) (hb s)) (add32 (hc h) (hc s))
          (add32 (hd h) (hd s)) (add32 (he h) (he s)).

(** [hashlib.sha1(msg).digest()]: twenty bytes. *)
Definition sha1 (msg : bytes) : bytes :=
  let padded := pad msg in
  let h := fold_left compress (chunks (List.length padded) 64 padded) init in
  (to_bytes 4 (ha h) ++ to_bytes 4 (hb h) ++ to_bytes 4 (hc h)
     ++ to_bytes 4 (hd h) ++ to_bytes 4 (he h))%list.

(** [bytes(s, "utf-8")] on a string of ASCII characters: one byte per
    character. *)
Definition encode (s : string) : bytes :=
  map (fun c => Z.of_N (N_of_ascii c)) (list_ascii_of_string s).

End SHA1.

(** ** UUIDs

    Python's [uuid.UUID] is a 128-bit integer [int] with a textual form. *)
Record UUID : Type := mkUUID { int : Z }.

(** [UUID(bytes=bs, version=v)]: the integer read big-endian from the
    sixteen bytes, with the variant set to RFC 4122 and the version nibble
    set to [v]. *)
Definition UUID_of_bytes (bs : SHA1.bytes) (version : Z) : UUID :=
  let i := SHA1.from_bytes bs in
  let i := Z.land i (Z.lnot (Z.shiftl 49152 48)) in
  let i := Z.lor i (Z.shiftl 32768 48) in
  let i := Z.land i (Z.lnot (Z.shiftl 61440 64)) in
  let i := Z.lor i (Z.shiftl version 76) in
  mkUUID i.

(** [UUID.bytes]. *)
Definition UUID_bytes (u : UUID) : SHA1.bytes := SHA1.to_bytes 16 (int u).

(** [UUID.version]. *)
Definition UUID_version (u : UUID) : Z := Z.land (Z.shiftr (int u) 76) 15.

Definition hex_digit (n : Z) : ascii :=
  match String.get (Z.to_nat n) "0123456789abcdef" with
  | Some c => c
  | None => "0"%char
  end.

(** ['%032x' % self.int], for [0 <= int < 2^128]. *)
Definition hex32 (u : UUID) : string :=
  string_of_list_ascii
    (map (fun i => hex_digit (Z.land (Z.shiftr (int u) (4 * Z.of_nat i)) 15))
         (rev (seq 0 32))).

(** [UUID.__str__]: the 8-4-4-4-12 form. *)
Definition str (u : UUID) : string :=
  let hex := hex32 u in
  (substring 0 8 hex ++ "-" ++ substring 8 4 hex ++ "-"
     ++ substring 12 4 hex ++ "-" ++ substring 16 4 hex ++ "-"
     ++ substring 20 (String.length hex - 20) hex)%string.

Definition NAMESPACE_X500 : UUID :=
  mkUUID 143098242721090011660934971687007695048.

Definition NAMESPACE_DNS : UUID :=
  mkUUID 143098242404177361603877621312831893704.

(** [uuid.uuid5]. *)
Definition uuid5 (namespace : UUID) (name : string) : UUID :=
  let hash := SHA1.sha1 (UUID_bytes namespace ++ SHA1.encode name)%list in
  UUID_of_bytes (firstn 16 hash) 5.

(** [uuid.uuid4], as a function of the sixteen bytes that [os.urandom]
    returns. *)
Definition uuid4 (urandom : SHA1.bytes) : UUID :=
  UUID_of_bytes urandom 4.

(** [from_uuids( *uuid )]: the variadic arguments are a list. *)
Definition from_uuids (uuid : list UUID) : UUID :=
  uuid5 NAMESPACE_X500 (String.concat "" (map str uuid)).

(** ** Identified values *)

(** The dataclass [Uniq]: a payload and a UUID.  When the [uuid] field is
    not given Python fills it with [uuid4()]. *)
Record Uniq (A : Type) : Type := mkUniq { unwrapped : A; uuid : UUID }.

Arguments mkUniq {A} unwrapped uuid.
Arguments unwrapped {A} u.
Arguments uuid {A} u.

(** [Uniq.fmap]. *)
Definition Uniq_fmap {A B : Type} (f : A -> B) (self : Uniq A) : Uniq B :=
  mkUniq (f (unwrapped self)) (from_uuids [uuid self]).

(** [Uniq(x)] with the default factory, given the random bytes it draws. *)
Definition Uniq_fresh {A : Type} (urandom : SHA1.bytes) (x : A) : Uniq A :=
  mkUniq x (uuid4 urandom).

(** [uniquify_algebra algebra] returns the closure [f]. *)
Definition uniquify_algebra {A : Type} (algebra : Gates A -> A)
  : Gates (Uniq A) -> Uniq A :=
  fun g =>
    let uuids := map uuid (fields g) in
    let unlifted := algebra (fmap unwrapped g) in
    mkUniq unlifted (from_uuids uuids).

(** ** Observations on trees *)

(** Leaf payloads, left to right. *)
Fixpoint leaves {A : Type} (g : RecGates A) : list A :=
  match g with
  | RInput x => [x]
  | RNOT x => leaves x
  | RAND x y => leaves x ++ leaves y
  | ROR x y => leaves x ++ leaves y
  end.

(** Number of nodes. *)
Fixpoint size {A : Type} (g : RecGates A) : nat :=
  match g with
  | RInput _ => 1
  | RNOT x => S (size x)
  | RAND x y => S (size x + size y)
  | ROR x y => S (size x + size y)
  end.

(** A tree with its payloads erased: kinds and slot order only.  It is
    read off the tree directly and does not go through [map_inputs]. *)
Fixpoint shape {A : Type} (g : RecGates A) : RecGates unit :=
  match g with
  | RInput _ => RInput tt
  | RNOT x => RNOT (shape x)
  | RAND x y => RAND (shape x) (shape y)
  | ROR x y => ROR (shape x) (shape y)
  end.

(** ** fold with an algebra that has effects

    To speak about the order and the number of algebra applications the
    algebra is given a state to thread: [M S X] is a computation that reads
    and writes an [S] and returns an [X].  [fmapM] and [foldM] are [fmap]
    and [fold] with Python's evaluation order made explicit: the arguments
    of the constructor call [AND(f(self.x), f(self.y))] run left to right,
    and the algebra runs on the gate they build. *)
Section Effects.

Variable S : Type.

Definition M (X : Type) : Type := S -> X * S.

Definition ret {X : Type} (x : X) : M X := fun s => (x, s).

Definition bind {X Y : Type} (m : M X) (k : X -> M Y) : M Y :=
  fun s => let (x, s') := m s in k x s'.

Local Notation "x <- m ;; k" := (bind m (fun x => k))
  (at level 61, m at next level, right associativity).

Definition fmapM {X Y : Type} (f : X -> M Y) (g : Gates X) : M (Gates Y) :=
  match g with
  | Input x => a <- f x ;; ret (Input a)
  | NOT x => a <- f x ;; ret (NOT a)
  | AND x y => a <- f x ;; b <- f y ;; ret (AND a b)
  | OR x y => a <- f x ;; b <- f y ;; ret (OR a b)
  end.

Fixpoint foldM {A : Type} (f_algebra : Gates A -> M A) (g : RecGates A)
  : M A :=
  match g with
  | RInput x => f_algebra (Input x)
  | RNOT x => g' <- fmapM (foldM f_algebra) (NOT x) ;; f_algebra g'
  | RAND x y => g' <- fmapM (foldM f_algebra) (AND x y) ;; f_algebra g'
  | ROR x y => g' <- fmapM (foldM f_algebra) (OR x y) ;; f_algebra g'
  end.

End Effects.

(** A pure algebra instrumented to append each gate it is applied to to a
    log. *)
Definition logged {A : Type} (algebra : Gates A -> A)
  : Gates A -> M (list (Gates A)) A :=
  fun g log => (algebra g, log ++ [g]).

(** [map_inputs] with a leaf transform that has effects, in Python's
    evaluation order: the leaves are rewritten left to right. *)
Fixpoint map_inputsM {S A B : Type} (f : A -> M S B) (g : RecGates A)
  : M S (RecGates B) :=
  match g with
  | RInput x => bind (f x) (fun b => ret (RInput b))
  | RNOT x =>
      bind (fmapM (map_inputsM f) (NOT x)) (fun g' => ret (as_tree g'))
  | RAND x y =>
      bind (fmapM (map_inputsM f) (AND x y)) (fun g' => ret (as_tree g'))
  | ROR x y =>
      bind (fmapM (map_inputsM f) (OR x y)) (fun g' => ret (as_tree g'))
  end.

(** [Uniq(x)] as an effect: the state counts the calls made to
    [os.urandom] so far, and [urandom n] is what the [n]-th call returns. *)
Definition Uniq_draw {A : Type} (urandom : nat -> SHA1.bytes) (x : A)
  : M nat (Uniq A) :=
  fun n => (Uniq_fresh (urandom n) x, Datatypes.S n).

(** ** Reference definitions taken from the specification's wording *)

(** The one-level gates a post-order, left-before-right traversal presents
    to the algebra, one per node. *)
Fixpoint postorder {A : Type} (algebra : Gates A -> A) (g : RecGates A)
  : list (Gates A) :=
  match g with
  | RInput x => [Input x]
  | RNOT x => postorder algebra x ++ [NOT (fold algebra x)]
  | RAND x y =>
      postorder algebra x ++ postorder algebra y
        ++ [AND (fold algebra x) (fold algebra y)]
  | ROR x y =>
      postorder algebra x ++ postorder algebra y
        ++ [OR (fold algebra x) (fold algebra y)]
  end.

(** Evaluating a circuit after substituting [f v] for each leaf payload
    [v]: the boolean connectives applied directly, with no intermediate
    tree. *)
Fixpoint eval_substituted {T : Type} (f : T -> bool) (g : RecGates T) : bool :=
  match g with
  | RInput v => f v
  | RNOT x => negb (eval_substituted f x)
  | RAND x y => eval_substituted f x && eval_substituted f y
  | ROR x y => eval_substituted f x || eval_substituted f y
  end.

(** Reading a float leaf as a boolean: [1.0] is [True], anything else (in
    particular [0.0]) is [False]. *)
Definition float_to_bool (v : float) : bool :=
  SFeqb v one.

(** The identity channel of the lift, as an algebra of its own: it hashes
    the slot identities and looks at nothing else. *)
Definition identity_algebra (g : Gates UUID) : UUID :=
  from_uuids (fields g).

(** ** The pretty-printer *)

(** [string_algebra]: the f-strings [f"!({x})"], [f"({x}&{y})"] and
    [f"({x}|{y})"] are concatenations, since [x] and [y] are strings. *)
Definition string_algebra (g : Gates string) : string :=
  match g with
  | Input x => x
  | NOT x => ("!(" ++ x ++ ")")%string
  | AND x y => ("(" ++ x ++ "&" ++ y ++ ")")%string
  | OR x y => ("(" ++ x ++ "|" ++ y ++ ")")%string
  end.

(** [str(b)] for a Python [bool], as [main] maps it over the leaves. *)
Definition str_bool (b : bool) : string :=
  if b then "True"%string else "False"%string.

(** [Uniq.__repr__]: [f"{self.unwrapped}#{str(self.uuid)[:4]}"], given the
    text of the payload. *)
Definition Uniq_repr {A : Type} (fmt : A -> string) (self : Uniq A) : string :=
  (fmt (unwrapped self) ++ "#" ++ substring 0 4 (str (uuid self)))%string.

(** ** Vocabulary for the properties *)

(** The five characters the pretty-printer writes itself. *)
Definition special (c : ascii) : bool :=
  (Ascii.eqb c "!" || Ascii.eqb c "(" || Ascii.eqb c ")"
   || Ascii.eqb c "&" || Ascii.eqb c "|")%bool.

(** A string without any of them. *)
Fixpoint plain (s : string) : bool :=
  match s with
  | EmptyString => true
  | String c s' => negb (special c) && plain s'
  end.

(** What can follow a printed subtree: nothing, or one of [&], [|], [)]. *)
Definition stops (r : string) : bool :=
  match r with
  | EmptyString => true
  | String c _ => (Ascii.eqb c "&" || Ascii.eqb c "|" || Ascii.eqb c ")")%bool
  end.

(** Nodes that are not leaves. *)
Fixpoint interior {A : Type} (g : RecGates A) : nat :=
  match g with
  | RInput _ => 0
  | RNOT x => S (interior x)
  | RAND x y => S (interior x + interior y)
  | ROR x y => S (interior x + interior y)
  end.

(** The circuit with every [AND] turned into an [OR] and every [OR] into an
    [AND]. *)
Fixpoint swap_and_or {A : Type} (g : RecGates A) : RecGates A :=
  match g with
  | RInput x => RInput x
  | RNOT x => RNOT (swap_and_or x)
  | RAND x y => ROR (swap_and_or x) (swap_and_or y)
  | ROR x y => RAND (swap_and_or x) (swap_and_or y)
  end.

(** The integers a [UUID] object can hold: the constructor rejects the
    others. *)
Definition UUID_ok (u : UUID) : Prop := 0 <= int u < 2 ^ 128.

(** [UUID.variant], as the two bits RFC 4122 fixes to [10]. *)
Definition UUID_variant_bits (u : UUID) : Z := Z.land (Z.shiftr (int u) 62) 3.

(** The [k]-th hexadecimal digit of a UUID, counted from the least
    significant one, as [hex32] writes it. *)
Definition digit (u : UUID) (k : nat) : ascii :=
  hex_digit (Z.land (Z.shiftr (int u) (4 * Z.of_nat k)) 15).

(** The 8-4-4-4-12 text made of thirty-two given digits: [str] with the
    digits left abstract. *)
Definition str_of_digits (d : nat -> ascii) : string :=
  let hex := string_of_list_ascii (map d (rev (seq 0 32))) in
  (substring 0 8 hex ++ "-" ++ substring 8 4 hex ++ "-"
     ++ substring 12 4 hex ++ "-" ++ substring 16 4 hex ++ "-"
     ++ substring 20 (String.length hex - 20) hex)%string.

(** The value of a lower-case hexadecimal digit. *)
Definition hex_value (c : ascii) : Z :=
  let n := Z.of_N (N_of_ascii c) in
  if n <? 58 then n - 48 else n - 87.

(** Bytes proper. *)
Definition bytes_ok (bs : SHA1.bytes) : Prop :=
  Forall (fun b => 0 <= b < 256) bs.

(** * Properties *)

(** ** Sanity checks of the hash model against published vectors *)

(** FIPS 180 test vectors for SHA-1: the messages ["abc"], the empty
    message, and a 56-byte message that needs two blocks. *)
Example sha1_abc :
  SHA1.from_bytes (SHA1.sha1 (SHA1.encode "abc"))
  = 968236873715988614170569073515315707566766479517.
Proof. vm_compute. reflexivity. Qed.

Example sha1_empty :
  SHA1.from_bytes (SHA1.sha1 [])
  = 1245845410931227995499360226027473197403882391305.
Proof. vm_compute. reflexivity. Qed.

Example sha1_two_blocks :
  SHA1.from_bytes
    (SHA1.sha1
       (SHA1.encode "abcdbcdecdefdefgefghfghighijhijkijkljklmklmnlmnomnopnopq"))
  = 756981919157381189150916787291668349464288325873.
Proof. vm_compute. reflexivity. Qed.

(** The example of the Python documentation of [uuid5]. *)
Example uuid5_python_org :
  str (uuid5 NAMESPACE_DNS "python.org")
  = "886313e1-3b8a-5372-9b90-0c9aee199e5d"%string.
Proof. vm_compute. reflexivity. Qed.

Example str_NAMESPACE_X500 :
  str NAMESPACE_X500 = "6ba7b814-9dad-11d1-80b4-00c04fd430c8"%string.
Proof. vm_compute. reflexivity. Qed.

(** ** The version nibble *)

Lemma UUID_version_of_bytes (bs : SHA1.bytes) (v : Z) :
  UUID_version (UUID_of_bytes bs v) = Z.land v 15.
Proof.
  unfold UUID_version, UUID_of_bytes. cbn [int].
  generalize (SHA1.from_bytes bs). intro i.
  rewrite Z.shiftr_lor, Z.shiftr_land.
  rewrite Z.shiftr_shiftl_l by lia.
  change (76 - 76) with 0. rewrite Z.shiftl_0_r.
  change (Z.shiftr (Z.lnot (Z.shiftl 61440 64)) 76) with (-16).
  rewrite Z.land_lor_distr_l, <- Z.land_assoc.
  change (Z.land (-16) 15) with 0.
  rewrite Z.land_0_r. apply Z.lor_0_l.
Qed.

Lemma uuid5_version (namespace : UUID) (name : string) :
  UUID_version (uuid5 namespace name) = 5.
Proof. unfold uuid5. apply UUID_version_of_bytes. Qed.

Lemma uuid4_version (urandom : SHA1.bytes) :
  UUID_version (uuid4 urandom) = 4.
Proof. unfold uuid4. apply UUID_version_of_bytes. Qed.

Lemma from_uuids_version (l : list UUID) :
  UUID_version (from_uuids l) = 5.
Proof. unfold from_uuids. apply uuid5_version. Qed.

(** A name-based identity never equals an identity of another version; in
    particular it never equals one made by [uuid4]. *)
Lemma from_uuids_fresh (l : list UUID) (i : UUID) :
  UUID_version i <> 5 -> from_uuids l <> i.
Proof.
  intros Hv Heq. apply Hv. rewrite <- Heq. apply from_uuids_version.
Qed.

Lemma from_uuids_not_uuid4 (l : list UUID) (urandom : SHA1.bytes) :
  from_uuids l <> uuid4 urandom.
Proof.
  apply from_uuids_fresh. rewrite uuid4_version. discriminate.
Qed.

(** ** The lift, unfolded *)

Lemma uniquify_algebra_uuid {A : Type} (algebra : Gates A -> A)
      (g : Gates (Uniq A)) :
  uuid (uniquify_algebra algebra g) = from_uuids (map uuid (fields g)).
Proof. reflexivity. Qed.

Lemma uniquify_algebra_unwrapped {A : Type} (algebra : Gates A -> A)
      (g : Gates (Uniq A)) :
  unwrapped (uniquify_algebra algebra g) = algebra (fmap unwrapped g).
Proof. reflexivity. Qed.

(** [fmap] keeps the class and the number of slots, and maps the slots in
    order. *)
Lemma fmap_kind {A B : Type} (f : A -> B) (g : Gates A) :
  kind_of (fmap f g) = kind_of g.
Proof. destruct g; reflexivity. Qed.

Lemma fmap_fields {A B : Type} (f : A -> B) (g : Gates A) :
  fields (fmap f g) = map f (fields g).
Proof. destruct g; reflexivity. Qed.

(** The identity channel of the lift is a fold of [identity_algebra]. *)
Lemma uniquify_algebra_uuid_fmap {A : Type} (algebra : Gates A -> A)
      (g : Gates (Uniq A)) :
  uuid (uniquify_algebra algebra g) = identity_algebra (fmap uuid g).
Proof.
  unfold identity_algebra. rewrite fmap_fields. reflexivity.
Qed.

Lemma fold_uniquify_uuid {A : Type} (algebra : Gates A -> A)
      (t : RecGates (Uniq A)) :
  uuid (fold (uniquify_algebra algebra) t)
  = fold identity_algebra (map_inputs uuid t).
Proof.
  induction t as [u | x IHx | x IHx y IHy | x IHx y IHy];
    cbn [fold map_inputs fmap as_tree];
    rewrite uniquify_algebra_uuid_fmap; cbn [fmap]; congruence.
Qed.

Lemma fold_uniquify_unwrapped {A : Type} (algebra : Gates A -> A)
      (t : RecGates (Uniq A)) :
  unwrapped (fold (uniquify_algebra algebra) t)
  = fold algebra (map_inputs unwrapped t).
Proof.
  induction t as [u | x IHx | x IHx y IHy | x IHx y IHy];
    cbn [fold map_inputs fmap as_tree];
    rewrite uniquify_algebra_unwrapped; cbn [fmap]; congruence.
Qed.

(** ** Leaf identities under the lift *)

(** C1, the claim as stated fails: the lifted algebra applied to the leaf
    [Input(Uniq(False, 00000000-0000-4000-8000-000000000000))] returns the
    identity [fa54856c-1b59-5f94-b6b1-c94cbdcccf51], not the identity the
    leaf carried. *)
Lemma leaf_identity_not_kept :
  str (mkUUID 302240678275694148452352)
  = "00000000-0000-4000-8000-000000000000"%string
  /\ str (uuid (uniquify_algebra boolean_algebra
                  (Input (mkUniq false (mkUUID 302240678275694148452352)))))
     = "fa54856c-1b59-5f94-b6b1-c94cbdcccf51"%string
  /\ uuid (uniquify_algebra boolean_algebra
             (Input (mkUniq false (mkUUID 302240678275694148452352))))
     <> mkUUID 302240678275694148452352.
Proof.
  split; [| split].
  - vm_compute. reflexivity.
  - vm_compute. reflexivity.
  - vm_compute. discriminate.
Qed.

(** C1, amended: for every algebra and every leaf [Input(Uniq(p, i))] the
    lifted algebra returns the identity [from_uuids(i)], the version-5 hash
    of the text of [i]; it depends on [i] alone, and it differs from [i]
    whenever [i] was made by [uuid4].  Folding the lifted algebra over a
    leaf of a tree does the same. *)
Theorem leaf_identity_rehashed {A : Type} (algebra : Gates A -> A)
        (p : A) (i : UUID) :
  uuid (uniquify_algebra algebra (Input (mkUniq p i))) = from_uuids [i]
  /\ uuid (fold (uniquify_algebra algebra) (RInput (mkUniq p i)))
     = from_uuids [i]
  /\ UUID_version (uuid (uniquify_algebra algebra (Input (mkUniq p i)))) = 5
  /\ (forall urandom : SHA1.bytes,
         uuid (uniquify_algebra algebra (Input (Uniq_fresh urandom p)))
         <> uuid (Uniq_fresh urandom p)).
Proof.
  repeat split.
  - apply from_uuids_version.
  - intro urandom. rewrite uniquify_algebra_uuid.
    apply from_uuids_not_uuid4.
Qed.

(** ** The end-to-end scenario *)

(** C2, the claim as stated fails: the boolean fold of the example circuit
    at [x=False, y=True, z=False] is not [True]. *)
Lemma example_fold_not_true :
  fold boolean_algebra (example false true false) <> true.
Proof. vm_compute. discriminate. Qed.

(** C2, amended: folding the boolean algebra over
    [EQ(AND(x, OR(AND(x,y), z)), NOT(z))] at [x=False, y=True, z=False]
    returns [False]: the left operand of [EQ] is [False] and the right one
    is [True]. *)
Theorem example_fold_false :
  fold boolean_algebra (example false true false) = false
  /\ fold boolean_algebra
       (RAND (RInput false) (ROR (RAND (RInput false) (RInput true))
                                 (RInput false))) = false
  /\ fold boolean_algebra (RNOT (RInput false)) = true.
Proof. repeat split. Qed.

(** [EQ] is equality of the folded operands, which is why the scenario
    yields [False]. *)
Lemma fold_EQ (x y : RecGates bool) :
  fold boolean_algebra (EQ x y)
  = Bool.eqb (fold boolean_algebra x) (fold boolean_algebra y).
Proof.
  unfold EQ. cbn [fold boolean_algebra fmap as_tree].
  destruct (fold boolean_algebra x), (fold boolean_algebra y); reflexivity.
Qed.

(** ** The continuous relaxation on [{0.0, 1.0}] *)

(** The int [1] of [1 - x] becomes the float [1.0]. *)
Lemma of_int_1 : of_int 1 = one.
Proof. vm_compute. reflexivity. Qed.

(** One level: on gates whose slots are [0.0] or [1.0] the relaxation
    computes the cast of what the boolean algebra computes. *)
Lemma float_algebra_bool_to_float (g : Gates bool) :
  float_algebra (fmap bool_to_float g) = bool_to_float (boolean_algebra g).
Proof.
  destruct g as [x | x | x y | x y];
    try destruct x; try destruct y; vm_compute; reflexivity.
Qed.

Lemma float_to_bool_bool_to_float (b : bool) :
  float_to_bool (bool_to_float b) = b.
Proof. destruct b; vm_compute; reflexivity. Qed.

(** Whole trees, starting from the boolean side: this is what [main] prints
    as "Float Algebra". *)
Lemma fold_float_of_bool_tree (t : RecGates bool) :
  fold float_algebra (map_inputs bool_to_float t)
  = bool_to_float (fold boolean_algebra t).
Proof.
  induction t as [b | x IHx | x IHx y IHy | x IHx y IHy];
    cbn [fold map_inputs fmap as_tree].
  - reflexivity.
  - rewrite IHx. apply (float_algebra_bool_to_float (NOT _)).
  - rewrite IHx, IHy. apply (float_algebra_bool_to_float (AND _ _)).
  - rewrite IHx, IHy. apply (float_algebra_bool_to_float (OR _ _)).
Qed.

(** A float tree with leaves in [{0.0, 1.0}] is the cast of its boolean
    reading. *)
Lemma bit_tree_is_cast (t : RecGates float) :
  Forall (fun v => v = zero \/ v = one) (leaves t) ->
  map_inputs bool_to_float (map_inputs float_to_bool t) = t.
Proof.
  induction t as [v | x IHx | x IHx y IHy | x IHx y IHy];
    cbn [leaves map_inputs fmap as_tree]; intro H.
  - inversion H as [| ? ? [Hv | Hv] _]; subst v; reflexivity.
  - rewrite IHx by assumption. reflexivity.
  - apply Forall_app in H. destruct H as [Hx Hy].
    rewrite IHx, IHy by assumption. reflexivity.
  - apply Forall_app in H. destruct H as [Hx Hy].
    rewrite IHx, IHy by assumption. reflexivity.
Qed.

(** C3: for every tree whose leaves are all [0.0] or [1.0], the fold of the
    continuous-relaxation algebra equals [bool_to_float] of the fold of the
    boolean algebra over the same tree with [1.0] read as [True] and [0.0]
    as [False]. *)
Theorem relaxation_agrees_with_boolean (t : RecGates float) :
  Forall (fun v => v = zero \/ v = one) (leaves t) ->
  fold float_algebra t
  = bool_to_float (fold boolean_algebra (map_inputs float_to_bool t)).
Proof.
  intro H. rewrite <- fold_float_of_bool_tree.
  rewrite bit_tree_is_cast by assumption. reflexivity.
Qed.

Lemma relaxation_agrees_with_boolean_witness :
  Forall (fun v => v = zero \/ v = one) (leaves (example zero one zero))
  /\ fold float_algebra (example zero one zero)
     = bool_to_float
         (fold boolean_algebra
            (map_inputs float_to_bool (example zero one zero))).
Proof.
  assert (H : Forall (fun v => v = zero \/ v = one)
                     (leaves (example zero one zero))).
  { cbn.
    repeat (constructor; [ (left; reflexivity) || (right; reflexivity) | ]).
    constructor. }
  split; [exact H | exact (relaxation_agrees_with_boolean _ H)].
Defined.

(** The end-to-end scenario on the float side: [0.0], the cast of [False]. *)
Example example_fold_float :
  fold float_algebra (map_inputs bool_to_float (example false true false))
  = zero.
Proof. vm_compute. reflexivity. Qed.

(** ** fold is post-order, one application per node *)

(** With a logging algebra, [foldM] returns what [fold] returns and appends
    the post-order sequence of gates to the log. *)
Lemma foldM_logged {A : Type} (algebra : Gates A -> A) (t : RecGates A) :
  forall log : list (Gates A),
    foldM (logged algebra) t log
    = (fold algebra t, log ++ postorder algebra t).
Proof.
  induction t as [v | x IHx | x IHx y IHy | x IHx y IHy];
    intro log; cbn [foldM fold postorder fmap];
    unfold fmapM, bind, ret; rewrite ?IHx, ?IHy;
    unfold logged; rewrite <- ?app_assoc; reflexivity.
Qed.

Lemma postorder_length {A : Type} (algebra : Gates A -> A) (t : RecGates A) :
  List.length (postorder algebra t) = size t.
Proof.
  induction t as [v | x IHx | x IHx y IHy | x IHx y IHy];
    cbn [postorder size]; rewrite ?length_app; cbn [List.length]; lia.
Qed.

(** An algebra without effects leaves the state alone, and [foldM] is then
    [fold]. *)
Lemma foldM_pure {S A : Type} (algebra : Gates A -> A) (t : RecGates A) :
  forall s : S,
    foldM (fun g => ret (algebra g)) t s = (fold algebra t, s).
Proof.
  induction t as [v | x IHx | x IHx y IHy | x IHx y IHy];
    intro s; cbn [foldM fold fmap];
    unfold fmapM, bind; rewrite ?IHx, ?IHy; reflexivity.
Qed.

(** For any algebra with effects, the left operand of a binary node is
    folded first, the right operand next, on the state the left one leaves,
    and the algebra runs last. *)
Lemma foldM_binary {S A : Type} (f_algebra : Gates A -> M S A)
      (l r : RecGates A) (s : S) :
  foldM f_algebra (RAND l r) s
  = (let (a, s1) := foldM f_algebra l s in
     let (b, s2) := foldM f_algebra r s1 in
     f_algebra (AND a b) s2)
  /\ foldM f_algebra (ROR l r) s
     = (let (a, s1) := foldM f_algebra l s in
        let (b, s2) := foldM f_algebra r s1 in
        f_algebra (OR a b) s2).
Proof.
  split; cbn [foldM]; unfold fmapM, bind, ret;
    destruct (foldM f_algebra l s) as [a s1];
    destruct (foldM f_algebra r s1) as [b s2]; reflexivity.
Qed.

(** C4: [fold] applies the algebra to a leaf directly; at a [NOT], [AND] or
    [OR] node it applies the algebra to the gate of folded children; run
    with a logging algebra it applies the algebra in post-order, left slot
    before right slot, exactly once per node. *)
Theorem fold_is_postorder {A : Type} (algebra : Gates A -> A) :
  (forall v, fold algebra (RInput v) = algebra (Input v))
  /\ (forall t, fold algebra (RNOT t) = algebra (NOT (fold algebra t)))
  /\ (forall l r, fold algebra (RAND l r)
                  = algebra (AND (fold algebra l) (fold algebra r)))
  /\ (forall l r, fold algebra (ROR l r)
                  = algebra (OR (fold algebra l) (fold algebra r)))
  /\ (forall t log, foldM (logged algebra) t log
                    = (fold algebra t, log ++ postorder algebra t))
  /\ (forall t, List.length (postorder algebra t) = size t).
Proof.
  repeat split.
  - intros t log. apply foldM_logged.
  - apply postorder_length.
Qed.

(** The log for the circuit [AND(NOT(a), OR(b, c))]: children
    before parents, left before right. *)
Example foldM_log_example :
  snd (foldM (logged boolean_algebra)
         (RAND (RNOT (RInput true)) (ROR (RInput false) (RInput true))) [])
  = [Input true; NOT true; Input false; Input true; OR false true;
     AND false true].
Proof. reflexivity. Qed.

(** ** map_inputs *)

Lemma map_inputs_leaves {A B : Type} (f : A -> B) (t : RecGates A) :
  leaves (map_inputs f t) = map f (leaves t).
Proof.
  induction t as [v | x IHx | x IHx y IHy | x IHx y IHy];
    cbn [map_inputs leaves map fmap as_tree]; rewrite ?map_app; congruence.
Qed.

Lemma map_inputs_compose {A B C : Type} (f : A -> B) (h : B -> C)
      (t : RecGates A) :
  map_inputs h (map_inputs f t) = map_inputs (fun v => h (f v)) t.
Proof.
  induction t as [v | x IHx | x IHx y IHy | x IHx y IHy];
    cbn [map_inputs fmap as_tree]; congruence.
Qed.

Lemma map_inputs_shape {A B : Type} (f : A -> B) (t : RecGates A) :
  shape (map_inputs f t) = shape t.
Proof.
  induction t as [v | x IHx | x IHx y IHy | x IHx y IHy];
    cbn [map_inputs fmap as_tree shape]; congruence.
Qed.

Lemma map_inputs_size {A B : Type} (f : A -> B) (t : RecGates A) :
  size (map_inputs f t) = size t.
Proof.
  induction t as [v | x IHx | x IHx y IHy | x IHx y IHy];
    cbn [map_inputs size fmap as_tree]; congruence.
Qed.

(** On booleans the algebra's [and]/[or] are [andb]/[orb]. *)
Lemma boolean_algebra_connectives (g : Gates bool) :
  boolean_algebra g
  = match g with
    | Input x => x
    | NOT x => negb x
    | AND x y => x && y
    | OR x y => x || y
    end.
Proof. destruct g as [x | x | x y | x y]; try destruct x; reflexivity. Qed.

(** C5: for every tree [t] and payload transform [f], folding the boolean
    algebra over [map_inputs f t] equals evaluating [t] with [f v]
    substituted for each leaf payload [v]; [map_inputs] keeps every node's
    kind and slot order and rewrites the leaf payloads with [f], in order:
    it sends a leaf [v] to the leaf [f v], and a [NOT], [AND] or [OR] node
    to a node of the same kind over the mapped children, left child left
    and right child right. *)
Theorem substitution_commutes_with_fold {T : Type} (f : T -> bool)
        (t : RecGates T) :
  fold boolean_algebra (map_inputs f t) = eval_substituted f t
  /\ shape (map_inputs f t) = shape t
  /\ leaves (map_inputs f t) = map f (leaves t)
  /\ (forall v : T, map_inputs f (RInput v) = RInput (f v))
  /\ (forall x : RecGates T, map_inputs f (RNOT x) = RNOT (map_inputs f x))
  /\ (forall x y : RecGates T,
         map_inputs f (RAND x y) = RAND (map_inputs f x) (map_inputs f y))
  /\ (forall x y : RecGates T,
         map_inputs f (ROR x y) = ROR (map_inputs f x) (map_inputs f y)).
Proof.
  split; [| split; [| split]].
  - induction t as [v | x IHx | x IHx y IHy | x IHx y IHy];
      cbn [map_inputs fold fmap as_tree eval_substituted];
      rewrite ?IHx, ?IHy.
    + reflexivity.
    + reflexivity.
    + apply (boolean_algebra_connectives (AND _ _)).
    + apply (boolean_algebra_connectives (OR _ _)).
  - apply map_inputs_shape.
  - apply map_inputs_leaves.
  - repeat split.
Qed.

(** The kind found at the root of a tree, and the kinds along it, are those
    of the source tree: a mapped tree is a leaf, a [NOT], an [AND] or an
    [OR] exactly when the tree it was mapped from is. *)
Lemma map_inputs_root_kind {A B : Type} (f : A -> B) (t : RecGates A) :
  match t, map_inputs f t with
  | RInput v, RInput w => w = f v
  | RNOT x, RNOT x' => x' = map_inputs f x
  | RAND x y, RAND x' y' => x' = map_inputs f x /\ y' = map_inputs f y
  | ROR x y, ROR x' y' => x' = map_inputs f x /\ y' = map_inputs f y
  | _, _ => False
  end.
Proof. destruct t; cbn [map_inputs fmap as_tree]; auto. Qed.

(** ** The lift: payload *)

(** C6: for every algebra and every one-level gate of identified values, the
    payload of the lifted algebra's result is the algebra applied to the
    gate of unwrapped payloads; hence unwrapping the lifted fold of a tree
    gives the plain fold over the tree of unwrapped payloads. *)
Theorem lift_payload {A : Type} (algebra : Gates A -> A) :
  (forall g : Gates (Uniq A),
      unwrapped (uniquify_algebra algebra g) = algebra (fmap unwrapped g))
  /\ (forall t : RecGates (Uniq A),
         unwrapped (fold (uniquify_algebra algebra) t)
         = fold algebra (map_inputs unwrapped t)).
Proof.
  split.
  - intro g. apply uniquify_algebra_unwrapped.
  - intro t. apply fold_uniquify_unwrapped.
Qed.

(** What [main] prints as "Uniquified" has the payload of the plain boolean
    fold, whatever random bytes the leaves drew. *)
Lemma main_uniquified_payload (rnd : bool -> SHA1.bytes) :
  unwrapped
    (fold (uniquify_algebra boolean_algebra)
       (map_inputs (fun x => Uniq_fresh (rnd x) x)
          (example false true false)))
  = false.
Proof. rewrite fold_uniquify_unwrapped. reflexivity. Qed.

(** ** The lift: identity *)

(** C7: for every algebra, two one-level gates of the same kind whose
    ordered lists of slot identities are equal get equal identities from the
    lifted algebra, whatever payloads the slots carry. *)
Theorem derived_identity_ignores_payloads {A : Type} (algebra : Gates A -> A)
        (g1 g2 : Gates (Uniq A)) :
  kind_of g1 = kind_of g2 ->
  map uuid (fields g1) = map uuid (fields g2) ->
  uuid (uniquify_algebra algebra g1) = uuid (uniquify_algebra algebra g2).
Proof.
  intros _ Hids. rewrite !uniquify_algebra_uuid. rewrite Hids. reflexivity.
Qed.

Lemma derived_identity_ignores_payloads_witness :
  kind_of (AND (mkUniq true (mkUUID 1)) (mkUniq true (mkUUID 2)))
  = kind_of (AND (mkUniq false (mkUUID 1)) (mkUniq true (mkUUID 2)))
  /\ map uuid (fields (AND (mkUniq true (mkUUID 1)) (mkUniq true (mkUUID 2))))
     = map uuid
         (fields (AND (mkUniq false (mkUUID 1)) (mkUniq true (mkUUID 2))))
  /\ uuid (uniquify_algebra boolean_algebra
             (AND (mkUniq true (mkUUID 1)) (mkUniq true (mkUUID 2))))
     = uuid (uniquify_algebra boolean_algebra
               (AND (mkUniq false (mkUUID 1)) (mkUniq true (mkUUID 2)))).
Proof.
  split; [reflexivity | split; [reflexivity |]].
  apply (derived_identity_ignores_payloads boolean_algebra
           (AND (mkUniq true (mkUUID 1)) (mkUniq true (mkUUID 2)))
           (AND (mkUniq false (mkUUID 1)) (mkUniq true (mkUUID 2))));
    reflexivity.
Defined.

(** The same on whole trees: the identity of a lifted fold is determined by
    the tree of leaf identities, for any two algebras and payload types. *)
Lemma fold_identity_ignores_payloads {A B : Type} (alg1 : Gates A -> A)
      (alg2 : Gates B -> B) (t1 : RecGates (Uniq A)) (t2 : RecGates (Uniq B)) :
  map_inputs uuid t1 = map_inputs uuid t2 ->
  uuid (fold (uniquify_algebra alg1) t1)
  = uuid (fold (uniquify_algebra alg2) t2).
Proof. intro H. rewrite !fold_uniquify_uuid, H. reflexivity. Qed.

(** C8: for every algebra, identities [a], [b] and payloads, the lifted
    algebra gives [AND(x, y)] and [OR(x, y)] the same identity when [x]
    carries [a] and [y] carries [b] in both gates: the kind is not hashed. *)
Theorem and_or_identity_collision {A : Type} (algebra : Gates A -> A)
        (a b : UUID) (p1 p2 q1 q2 : A) :
  uuid (uniquify_algebra algebra (AND (mkUniq p1 a) (mkUniq p2 b)))
  = uuid (uniquify_algebra algebra (OR (mkUniq q1 a) (mkUniq q2 b))).
Proof. reflexivity. Qed.

(** The collision on concrete identities, with the payloads differing. *)
Example and_or_collision_example :
  str (uuid (uniquify_algebra boolean_algebra
               (AND (mkUniq true (mkUUID 302240678275694148452352))
                    (mkUniq true
                       (mkUUID 22685491133344597890602450946295682389)))))
  = "ac34c765-f6b1-54ce-a8d7-fe42829fc3f0"%string
  /\ str (uuid (uniquify_algebra boolean_algebra
                  (OR (mkUniq false (mkUUID 302240678275694148452352))
                      (mkUniq false
                         (mkUUID 22685491133344597890602450946295682389)))))
     = "ac34c765-f6b1-54ce-a8d7-fe42829fc3f0"%string.
Proof. split; vm_compute; reflexivity. Qed.

(** [NOT(x)] and [Input(x)] collide in the same way. *)
Lemma not_input_identity_collision {A : Type} (algebra : Gates A -> A)
      (a : UUID) (p q : A) :
  uuid (uniquify_algebra algebra (NOT (mkUniq p a)))
  = uuid (uniquify_algebra algebra (Input (mkUniq q a))).
Proof. reflexivity. Qed.

(** ** The local-gradient oracle *)

(** C9: [derivative_algebra] applied to the gate [AND(0.3, 0.7)] returns the
    pair [(0.7, 0.3)]. *)
Theorem derivative_and_example :
  derivative_algebra (AND lit_0_3 lit_0_7) = DPair lit_0_7 lit_0_3.
Proof. reflexivity. Qed.

Lemma derivative_and_swaps (x y : float) :
  derivative_algebra (AND x y) = DPair y x.
Proof. reflexivity. Qed.

(** ** Mapping over an identified value *)

(** C10: [Uniq(p, i).fmap(f)] is [Uniq(f(p), from_uuids(i))]: the new
    identity is the version-5 hash of the old one, so it is the same for any
    two functions mapped over the same value, and it is never the old
    identity when that one was made by [uuid4]. *)
Theorem Uniq_fmap_rehashes {A B C : Type} (f : A -> B) (h : A -> C)
        (p : A) (i : UUID) :
  Uniq_fmap f (mkUniq p i) = mkUniq (f p) (from_uuids [i])
  /\ uuid (Uniq_fmap f (mkUniq p i)) = uuid (Uniq_fmap h (mkUniq p i))
  /\ UUID_version (uuid (Uniq_fmap f (mkUniq p i))) = 5
  /\ (forall urandom : SHA1.bytes,
         uuid (Uniq_fmap f (Uniq_fresh urandom p))
         <> uuid (Uniq_fresh urandom p)).
Proof.
  repeat split.
  - apply from_uuids_version.
  - intro urandom. apply from_uuids_not_uuid4.
Qed.

Example Uniq_fmap_example :
  str (uuid (Uniq_fmap negb
               (mkUniq true (mkUUID 302240678275694148452352))))
  = "fa54856c-1b59-5f94-b6b1-c94cbdcccf51"%string.
Proof. vm_compute. reflexivity. Qed.

(** * Further properties of the code *)

(** ** XOR and EQ *)

(** X1: the circuit [XOR(x, y)] folds, under the boolean algebra, to the
    exclusive or of the folds of [x] and [y]; on leaves cast with
    [bool_to_float] the float algebra gives the cast of the same value. *)
Theorem XOR_is_xor (x y : RecGates bool) :
  fold boolean_algebra (XOR x y)
  = xorb (fold boolean_algebra x) (fold boolean_algebra y)
  /\ fold float_algebra (map_inputs bool_to_float (XOR x y))
     = bool_to_float (xorb (fold boolean_algebra x) (fold boolean_algebra y)).
Proof.
  assert (H : fold boolean_algebra (XOR x y)
              = xorb (fold boolean_algebra x) (fold boolean_algebra y)).
  { unfold XOR. cbn [fold fmap boolean_algebra].
    destruct (fold boolean_algebra x), (fold boolean_algebra y); reflexivity. }
  split; [exact H |].
  rewrite fold_float_of_bool_tree, H. reflexivity.
Qed.

(** X2: the circuit [EQ(x, y)] folds to [True] exactly when [x] and [y]
    fold to the same boolean; it is the negation of [XOR(x, y)]. *)
Theorem EQ_is_equality (x y : RecGates bool) :
  fold boolean_algebra (EQ x y)
  = Bool.eqb (fold boolean_algebra x) (fold boolean_algebra y)
  /\ fold boolean_algebra (EQ x y) = negb (fold boolean_algebra (XOR x y))
  /\ fold float_algebra (map_inputs bool_to_float (EQ x y))
     = bool_to_float
         (Bool.eqb (fold boolean_algebra x) (fold boolean_algebra y)).
Proof.
  split; [apply fold_EQ | split].
  - unfold EQ, XOR. cbn [fold fmap boolean_algebra].
    destruct (fold boolean_algebra x), (fold boolean_algebra y); reflexivity.
  - rewrite fold_float_of_bool_tree, fold_EQ. reflexivity.
Qed.

(** ** fold and map_inputs together *)

(** X3: fusion.  If [h] carries one algebra to another on every one-level
    gate, then [h] of a fold with the first algebra is the fold with the
    second algebra of the tree with [h] mapped over its leaves. *)
Theorem fold_fusion {A B : Type} (alg1 : Gates A -> A) (alg2 : Gates B -> B)
        (h : A -> B) :
  (forall g : Gates A, h (alg1 g) = alg2 (fmap h g)) ->
  forall t : RecGates A, h (fold alg1 t) = fold alg2 (map_inputs h t).
Proof.
  intros Hh t.
  induction t as [v | x IHx | x IHx y IHy | x IHx y IHy];
    cbn [fold map_inputs fmap as_tree]; rewrite Hh; cbn [fmap]; congruence.
Qed.

Lemma fold_fusion_witness :
  (forall g : Gates bool,
      bool_to_float (boolean_algebra g)
      = float_algebra (fmap bool_to_float g))
  /\ bool_to_float (fold boolean_algebra (XOR (RInput true) (RInput false)))
     = fold float_algebra
         (map_inputs bool_to_float (XOR (RInput true) (RInput false))).
Proof.
  assert (H : forall g : Gates bool,
             bool_to_float (boolean_algebra g)
             = float_algebra (fmap bool_to_float g)).
  { intro g. destruct g as [[] | [] | [] [] | [] []];
      vm_compute; reflexivity. }
  split; [exact H |].
  exact (fold_fusion boolean_algebra float_algebra bool_to_float H
           (XOR (RInput true) (RInput false))).
Defined.

Lemma map_inputs_id {A : Type} (t : RecGates A) :
  map_inputs (fun v => v) t = t.
Proof.
  induction t as [v | x IHx | x IHx y IHy | x IHx y IHy];
    cbn [map_inputs fmap as_tree]; congruence.
Qed.

(** X4: [map_inputs] is a functor on trees: mapping the identity changes
    nothing, mapping [f] and then [h] is mapping their composition, and the
    number of nodes and of leaves never changes. *)
Theorem map_inputs_functor {A B C : Type} (f : A -> B) (h : B -> C)
        (t : RecGates A) :
  map_inputs (fun v => v) t = t
  /\ map_inputs h (map_inputs f t) = map_inputs (fun v => h (f v)) t
  /\ size (map_inputs f t) = size t
  /\ List.length (leaves (map_inputs f t)) = List.length (leaves t).
Proof.
  split; [apply map_inputs_id | split; [apply map_inputs_compose | split]].
  - apply map_inputs_size.
  - rewrite map_inputs_leaves. apply length_map.
Qed.

(** ** The identity of a whole lifted fold *)

(** X5: the identity at the root of a lifted fold is the fold of
    [identity_algebra] over the tree of leaf identities; replacing every
    payload (even by one of another type) and the algebra leaves it
    unchanged. *)
Theorem lifted_fold_identity {A B : Type} (alg1 : Gates A -> A)
        (alg2 : Gates B -> B) (f : A -> B) (t : RecGates (Uniq A)) :
  uuid (fold (uniquify_algebra alg1) t)
  = fold identity_algebra (map_inputs uuid t)
  /\ uuid (fold (uniquify_algebra alg2)
             (map_inputs (fun u => mkUniq (f (unwrapped u)) (uuid u)) t))
     = uuid (fold (uniquify_algebra alg1) t).
Proof.
  split; [apply fold_uniquify_uuid |].
  rewrite !fold_uniquify_uuid, map_inputs_compose. reflexivity.
Qed.

Lemma fold_identity_swap (t : RecGates UUID) :
  fold identity_algebra (swap_and_or t) = fold identity_algebra t.
Proof.
  induction t as [v | x IHx | x IHx y IHy | x IHx y IHy];
    cbn [swap_and_or fold fmap]; rewrite ?IHx, ?IHy; reflexivity.
Qed.

Lemma map_inputs_swap {A B : Type} (f : A -> B) (t : RecGates A) :
  map_inputs f (swap_and_or t) = swap_and_or (map_inputs f t).
Proof.
  induction t as [v | x IHx | x IHx y IHy | x IHx y IHy];
    cbn [swap_and_or map_inputs fmap as_tree]; congruence.
Qed.

Lemma fold_boolean_dual (t : RecGates bool) :
  fold boolean_algebra (swap_and_or (map_inputs negb t))
  = negb (fold boolean_algebra t).
Proof.
  induction t as [v | x IHx | x IHx y IHy | x IHx y IHy];
    cbn [swap_and_or map_inputs fold fmap as_tree].
  - reflexivity.
  - rewrite IHx. reflexivity.
  - rewrite IHx, IHy. cbn [boolean_algebra].
    destruct (fold boolean_algebra x), (fold boolean_algebra y); reflexivity.
  - rewrite IHx, IHy. cbn [boolean_algebra].
    destruct (fold boolean_algebra x), (fold boolean_algebra y); reflexivity.
Qed.

(** X6: a circuit and its De Morgan dual (every [AND] and [OR] exchanged,
    every leaf payload negated, leaf identities kept) get the same identity
    from the lifted boolean fold although their values are opposite: the
    kind of a node never enters its identity, at any depth. *)
Theorem dual_circuit_collides (t : RecGates (Uniq bool)) :
  uuid (fold (uniquify_algebra boolean_algebra)
          (swap_and_or
             (map_inputs (fun u => mkUniq (negb (unwrapped u)) (uuid u)) t)))
  = uuid (fold (uniquify_algebra boolean_algebra) t)
  /\ unwrapped (fold (uniquify_algebra boolean_algebra)
                  (swap_and_or
                     (map_inputs
                        (fun u => mkUniq (negb (unwrapped u)) (uuid u)) t)))
     = negb (unwrapped (fold (uniquify_algebra boolean_algebra) t)).
Proof.
  split.
  - rewrite !fold_uniquify_uuid, map_inputs_swap, fold_identity_swap,
      map_inputs_compose. reflexivity.
  - rewrite !fold_uniquify_unwrapped, map_inputs_swap, map_inputs_compose.
    rewrite <- fold_boolean_dual, map_inputs_compose. reflexivity.
Qed.

(** ** Identities are well-formed UUIDs *)

Unset Implicit Arguments.

Lemma testbit_high (a k n : Z) :
  0 <= a < 2 ^ k -> 0 <= k <= n -> Z.testbit a n = false.
Proof.
  intros Ha Hk. rewrite <- (Z.mod_small a (2 ^ k)) by assumption.
  apply Z.mod_pow2_bits_high. assumption.
Qed.

Lemma range_of_bits (a k : Z) :
  0 <= k -> (forall n, k <= n -> Z.testbit a n = false) -> 0 <= a < 2 ^ k.
Proof.
  intros Hk Hbits.
  assert (Ha : a = a mod 2 ^ k).
  { apply Z.bits_inj'. intros n Hn.
    destruct (Z.lt_ge_cases n k) as [Hlt | Hge].
    - rewrite Z.mod_pow2_bits_low by assumption. reflexivity.
    - rewrite Z.mod_pow2_bits_high by lia. apply Hbits. assumption. }
  rewrite Ha. apply Z.mod_pos_bound. apply Z.pow_pos_nonneg; lia.
Qed.

Lemma from_bytes_acc_bits (bs : SHA1.bytes) :
  bytes_ok bs ->
  forall acc ka : Z,
    0 <= ka ->
    (forall n, ka <= n -> Z.testbit acc n = false) ->
    forall n, ka + 8 * Z.of_nat (List.length bs) <= n ->
              Z.testbit
                (fold_left (fun a b => Z.lor (Z.shiftl a 8) b) bs acc) n
              = false.
Proof.
  induction 1 as [| b bs Hb Hbs IH]; intros acc ka Hka Hacc n Hn.
  - cbn [fold_left]. apply Hacc. cbn [List.length] in Hn. lia.
  - cbn [fold_left]. cbn [List.length] in Hn.
    apply (IH _ (ka + 8)); [lia | | lia].
    intros m Hm. rewrite Z.lor_spec, Z.shiftl_spec by lia.
    rewrite Hacc by lia. apply (testbit_high b 8 m); [exact Hb | lia].
Qed.

Lemma from_bytes_range (bs : SHA1.bytes) :
  bytes_ok bs ->
  0 <= SHA1.from_bytes bs < 2 ^ (8 * Z.of_nat (List.length bs)).
Proof.
  intro Hbs. apply range_of_bits; [lia |].
  intros n Hn. unfold SHA1.from_bytes.
  apply (from_bytes_acc_bits bs Hbs 0 0); [lia | | lia].
  intros m _. apply Z.bits_0.
Qed.

Lemma to_bytes_ok (len : nat) (n : Z) : bytes_ok (SHA1.to_bytes len n).
Proof.
  unfold bytes_ok, SHA1.to_bytes. apply Forall_map, Forall_forall.
  intros i _. change 255 with (Z.ones 8). rewrite Z.land_ones by lia.
  apply Z.mod_pos_bound. reflexivity.
Qed.

Lemma sha1_bytes_ok (msg : SHA1.bytes) : bytes_ok (SHA1.sha1 msg).
Proof.
  unfold SHA1.sha1. cbv zeta. unfold bytes_ok.
  repeat (apply Forall_app; split); apply to_bytes_ok.
Qed.

Lemma bytes_ok_firstn (n : nat) (bs : SHA1.bytes) :
  bytes_ok bs -> bytes_ok (firstn n bs).
Proof.
  unfold bytes_ok. intro H. revert n.
  induction H as [| b bs Hb Hbs IH]; intros [| n]; cbn [firstn];
    constructor; auto.
Qed.

(** [UUID(bytes=bs, version=v)] is in range when [bs] holds at most sixteen
    proper bytes and [v] is a nibble. *)
Lemma UUID_of_bytes_ok (bs : SHA1.bytes) (v : Z) :
  bytes_ok bs -> (List.length bs <= 16)%nat -> 0 <= v < 16 ->
  UUID_ok (UUID_of_bytes bs v).
Proof.
  intros Hbs Hlen Hv. unfold UUID_ok, UUID_of_bytes. cbn [int].
  apply range_of_bits; [lia |]. intros n Hn.
  assert (Hi : Z.testbit (SHA1.from_bytes bs) n = false).
  { apply (testbit_high _ (8 * Z.of_nat (List.length bs)) n);
      [apply from_bytes_range; assumption | lia]. }
  rewrite Z.lor_spec, Z.land_spec, Z.lor_spec, Z.land_spec, Hi.
  rewrite !Z.shiftl_spec by lia.
  rewrite (testbit_high 32768 16 (n - 48)) by lia.
  rewrite (testbit_high v 4 (n - 76)) by lia.
  reflexivity.
Qed.

Lemma UUID_variant_of_bytes (bs : SHA1.bytes) (v : Z) :
  UUID_variant_bits (UUID_of_bytes bs v) = 2.
Proof.
  unfold UUID_variant_bits, UUID_of_bytes. cbn [int].
  generalize (SHA1.from_bytes bs). intro i.
  repeat (rewrite Z.shiftr_lor || rewrite Z.shiftr_land).
  rewrite (Z.shiftr_shiftl_l v) by lia.
  change (76 - 62) with 14.
  change (Z.shiftr (Z.lnot (Z.shiftl 61440 64)) 62) with (-245761).
  change (Z.shiftr (Z.lnot (Z.shiftl 49152 48)) 62) with (-4).
  change (Z.shiftr (Z.shiftl 32768 48) 62) with 2.
  repeat (rewrite Z.land_lor_distr_l || rewrite <- Z.land_assoc).
  change (Z.land (-245761) 3) with 3.
  change (Z.land (-4) 3) with 0. change (Z.land 2 3) with 2.
  rewrite Z.land_0_r, Z.lor_0_l.
  change 3 with (Z.ones 2). rewrite Z.land_ones by lia.
  rewrite Z.shiftl_mul_pow2 by lia.
  change (2 ^ 14) with (4096 * 2 ^ 2). rewrite Z.mul_assoc, Z.mod_mul by lia.
  reflexivity.
Qed.

Lemma from_uuids_ok (l : list UUID) : UUID_ok (from_uuids l).
Proof.
  unfold from_uuids, uuid5. apply UUID_of_bytes_ok.
  - apply bytes_ok_firstn, sha1_bytes_ok.
  - apply firstn_le_length.
  - lia.
Qed.

(** X7: whatever identities the slots carry, the identity the lifted
    algebra gives to a gate, and hence the identity at the root of any
    lifted fold, is a well-formed name-based UUID: an integer below
    [2^128] with version 5 and the RFC 4122 variant bits. *)
Theorem derived_identity_well_formed {A : Type} (algebra : Gates A -> A) :
  (forall g : Gates (Uniq A),
      UUID_ok (uuid (uniquify_algebra algebra g))
      /\ UUID_version (uuid (uniquify_algebra algebra g)) = 5
      /\ UUID_variant_bits (uuid (uniquify_algebra algebra g)) = 2)
  /\ (forall t : RecGates (Uniq A),
         UUID_ok (uuid (fold (uniquify_algebra algebra) t))
         /\ UUID_version (uuid (fold (uniquify_algebra algebra) t)) = 5
         /\ UUID_variant_bits (uuid (fold (uniquify_algebra algebra) t)) = 2).
Proof.
  assert (Hg : forall g : Gates (Uniq A),
             UUID_ok (uuid (uniquify_algebra algebra g))
             /\ UUID_version (uuid (uniquify_algebra algebra g)) = 5
             /\ UUID_variant_bits (uuid (uniquify_algebra algebra g)) = 2).
  { intro g. rewrite uniquify_algebra_uuid. split; [apply from_uuids_ok |].
    split; [apply from_uuids_version |].
    unfold from_uuids, uuid5. apply UUID_variant_of_bytes. }
  split; [exact Hg |].
  intro t. destruct t; cbn [fold]; apply Hg.
Qed.

(** X8: [Uniq(x)] built without an identity gets, for any sixteen bytes
    drawn from [os.urandom], a well-formed version-4 UUID, which the lifted
    algebra never hands back: every identity it derives differs from every
    freshly drawn one. *)
Theorem fresh_identity_well_formed {A : Type} (algebra : Gates A -> A)
        (urandom : SHA1.bytes) (x : A) (g : Gates (Uniq A)) :
  bytes_ok urandom -> List.length urandom = 16%nat ->
  UUID_ok (uuid (Uniq_fresh urandom x))
  /\ UUID_version (uuid (Uniq_fresh urandom x)) = 4
  /\ UUID_variant_bits (uuid (Uniq_fresh urandom x)) = 2
  /\ uuid (uniquify_algebra algebra g) <> uuid (Uniq_fresh urandom x).
Proof.
  intros Hb Hlen. cbn [Uniq_fresh uuid]. repeat split.
  - apply UUID_of_bytes_ok; [assumption | lia | lia].
  - apply UUID_of_bytes_ok; [assumption | lia | lia].
  - apply uuid4_version.
  - apply UUID_variant_of_bytes.
  - apply from_uuids_not_uuid4.
Qed.

Lemma fresh_identity_well_formed_witness :
  bytes_ok (repeat 255 16) /\ List.length (repeat 255 16) = 16%nat
  /\ UUID_ok (uuid (Uniq_fresh (repeat 255 16) true))
  /\ UUID_version (uuid (Uniq_fresh (repeat 255 16) true)) = 4.
Proof.
  assert (Hb : bytes_ok (repeat 255 16)).
  { unfold bytes_ok. cbn [repeat]. repeat (constructor; [lia |]).
    constructor. }
  assert (Hl : List.length (repeat 255 16) = 16%nat) by reflexivity.
  split; [exact Hb | split; [exact Hl |]].
  destruct (fresh_identity_well_formed boolean_algebra (repeat 255 16) true
              (Input (mkUniq true (mkUUID 0))) Hb Hl) as [H1 [H2 _]].
  split; [exact H1 | exact H2].
Defined.

(** ** The hashed name determines the ordered identities *)

Lemma str_as_digits (u : UUID) : str u = str_of_digits (digit u).
Proof. reflexivity. Qed.

Lemma append_nil_r (s : string) : (s ++ "")%string = s.
Proof. induction s as [| c s IH]; cbn [append]; congruence. Qed.

Lemma append_assoc (s1 s2 s3 : string) :
  ((s1 ++ s2) ++ s3)%string = (s1 ++ (s2 ++ s3))%string.
Proof. induction s1 as [| c s1 IH]; cbn [append]; congruence. Qed.

Lemma length_append (s1 s2 : string) :
  String.length (s1 ++ s2) = (String.length s1 + String.length s2)%nat.
Proof.
  induction s1 as [| c s1 IH]; cbn [append String.length Nat.add]; congruence.
Qed.

Lemma concat_cons (x : string) (xs : list string) :
  String.concat "" (x :: xs) = (x ++ String.concat "" xs)%string.
Proof.
  destruct xs as [| y ys]; cbn [String.concat append].
  - symmetry. apply append_nil_r.
  - reflexivity.
Qed.

(** Two texts that start with a UUID each and agree have the same
    thirty-two digits and the same remainder. *)
Lemma str_of_digits_append (d1 d2 : nat -> ascii) (r1 r2 : string) :
  (str_of_digits d1 ++ r1)%string = (str_of_digits d2 ++ r2)%string ->
  (forall k : nat, (k < 32)%nat -> d1 k = d2 k) /\ r1 = r2.
Proof.
  intro H. cbv in H. injection H as H. intros.
  split; [| assumption].
  intros k Hk.
  do 32 (destruct k as [| k]; [assumption |]).
  exfalso. lia.
Qed.

Lemma str_of_digits_nonempty (d : nat -> ascii) (r : string) :
  (str_of_digits d ++ r)%string <> ""%string.
Proof. cbv. discriminate. Qed.

(** A boolean property checked on the sixteen nibbles holds of each. *)
Lemma nibble_cases (P : Z -> bool) :
  forallb P (map Z.of_nat (seq 0 16)) = true ->
  forall n : Z, 0 <= n < 16 -> P n = true.
Proof.
  intros H n Hn. rewrite forallb_forall in H. apply H.
  apply in_map_iff. exists (Z.to_nat n).
  split; [lia | apply in_seq; lia].
Qed.

Lemma hex_value_digit (n : Z) : 0 <= n < 16 -> hex_value (hex_digit n) = n.
Proof.
  intro H. apply Z.eqb_eq.
  apply (nibble_cases (fun n => hex_value (hex_digit n) =? n));
    [vm_compute; reflexivity | exact H].
Qed.

Lemma nibble_range (a k : Z) : 0 <= Z.land (Z.shiftr a k) 15 < 16.
Proof.
  change 15 with (Z.ones 4). rewrite Z.land_ones by lia.
  apply Z.mod_pos_bound. reflexivity.
Qed.

Lemma digit_nibble (u1 u2 : UUID) (k : nat) :
  digit u1 k = digit u2 k ->
  Z.land (Z.shiftr (int u1) (4 * Z.of_nat k)) 15
  = Z.land (Z.shiftr (int u2) (4 * Z.of_nat k)) 15.
Proof.
  unfold digit. intro H. apply (f_equal hex_value) in H.
  rewrite !hex_value_digit in H by apply nibble_range. exact H.
Qed.

Lemma testbit_nibble (a : Z) (k : nat) (j : Z) :
  0 <= j < 4 ->
  Z.testbit (Z.land (Z.shiftr a (4 * Z.of_nat k)) 15) j
  = Z.testbit a (j + 4 * Z.of_nat k).
Proof.
  intro Hj. rewrite Z.land_spec, Z.shiftr_spec by lia.
  change 15 with (Z.ones 4). rewrite Z.ones_spec_low by lia.
  apply andb_true_r.
Qed.

(** A UUID in range is determined by its thirty-two digits. *)
Lemma UUID_of_digits (u1 u2 : UUID) :
  UUID_ok u1 -> UUID_ok u2 ->
  (forall k : nat, (k < 32)%nat -> digit u1 k = digit u2 k) -> u1 = u2.
Proof.
  intros H1 H2 Hd. destruct u1 as [a], u2 as [b].
  unfold UUID_ok in H1, H2. cbn [int] in H1, H2.
  f_equal. apply Z.bits_inj'. intros n Hn.
  destruct (Z.lt_ge_cases n 128) as [Hlt | Hge].
  - pose (k := Z.to_nat (n / 4)).
    assert (Hk : (k < 32)%nat).
    { unfold k. apply Nat2Z.inj_lt. rewrite Z2Nat.id.
      - apply Z.div_lt_upper_bound; lia.
      - apply Z.div_pos; lia. }
    assert (Hn4 : n = n mod 4 + 4 * Z.of_nat k).
    { unfold k. rewrite Z2Nat.id by (apply Z.div_pos; lia).
      pose proof (Z.div_mod n 4). lia. }
    assert (Hj : 0 <= n mod 4 < 4) by (apply Z.mod_pos_bound; lia).
    rewrite Hn4, <- !testbit_nibble by exact Hj.
    specialize (Hd k Hk). apply digit_nibble in Hd. cbn [int] in Hd.
    rewrite Hd. reflexivity.
  - rewrite (testbit_high a 128 n), (testbit_high b 128 n) by lia.
    reflexivity.
Qed.

Lemma names_injective (l1 : list UUID) :
  Forall UUID_ok l1 ->
  forall l2 : list UUID,
    Forall UUID_ok l2 ->
    String.concat "" (map str l1) = String.concat "" (map str l2) ->
    l1 = l2.
Proof.
  induction 1 as [| u1 l1 Hu1 Hl1 IH]; intros l2 Hl2 Heq.
  - destruct l2 as [| u2 l2]; [reflexivity |].
    cbn [map] in Heq. rewrite concat_cons, str_as_digits in Heq.
    symmetry in Heq. apply str_of_digits_nonempty in Heq. contradiction.
  - destruct Hl2 as [| u2 l2 Hu2 Hl2]; cbn [map] in Heq.
    + rewrite concat_cons, str_as_digits in Heq.
      apply str_of_digits_nonempty in Heq. contradiction.
    + rewrite !concat_cons, !str_as_digits in Heq.
      apply str_of_digits_append in Heq. destruct Heq as [Hd Hr].
      f_equal.
      * apply UUID_of_digits; assumption.
      * apply IH; assumption.
Qed.

(** X9: the text that [from_uuids] hashes, the texts of the identities
    joined in argument order, determines the ordered list of identities:
    two lists of UUIDs with the same joined text are the same list, so a
    different order or number of child identities is a different name. *)
Theorem hashed_name_determines_identities (l1 l2 : list UUID) :
  Forall UUID_ok l1 -> Forall UUID_ok l2 ->
  String.concat "" (map str l1) = String.concat "" (map str l2) ->
  l1 = l2.
Proof. intros H1 H2. apply names_injective; assumption. Qed.

Lemma hashed_name_determines_identities_witness :
  Forall UUID_ok [mkUUID 1; mkUUID 2]
  /\ String.concat "" (map str [mkUUID 1; mkUUID 2])
     = String.concat "" (map str [mkUUID 1; mkUUID 2])
  /\ [mkUUID 1; mkUUID 2] = [mkUUID 1; mkUUID 2].
Proof.
  assert (H : Forall UUID_ok [mkUUID 1; mkUUID 2]).
  { repeat constructor; cbn; lia. }
  split; [exact H | split; [reflexivity |]].
  exact (hashed_name_determines_identities
           [mkUUID 1; mkUUID 2] [mkUUID 1; mkUUID 2] H H eq_refl).
Defined.

(** X10: the hashed name is sensitive to order: for two distinct
    identities, the name of [a, b] differs from the name of [b, a], so
    [AND(x, y)] and [AND(y, x)] are hashed from different names. *)
Theorem hashed_name_order_sensitive (a b : UUID) :
  UUID_ok a -> UUID_ok b -> a <> b ->
  String.concat "" (map str [a; b]) <> String.concat "" (map str [b; a]).
Proof.
  intros Ha Hb Hab Heq. apply names_injective in Heq.
  - injection Heq as H _. contradiction.
  - constructor; [exact Ha | constructor; [exact Hb | constructor]].
  - constructor; [exact Hb | constructor; [exact Ha | constructor]].
Qed.

Lemma hashed_name_order_sensitive_witness :
  UUID_ok (mkUUID 1) /\ UUID_ok (mkUUID 2) /\ mkUUID 1 <> mkUUID 2
  /\ String.concat "" (map str [mkUUID 1; mkUUID 2])
     <> String.concat "" (map str [mkUUID 2; mkUUID 1]).
Proof.
  assert (H1 : UUID_ok (mkUUID 1)) by (unfold UUID_ok; cbn; lia).
  assert (H2 : UUID_ok (mkUUID 2)) by (unfold UUID_ok; cbn; lia).
  assert (H12 : mkUUID 1 <> mkUUID 2) by discriminate.
  split; [exact H1 | split; [exact H2 | split; [exact H12 |]]].
  exact (hashed_name_order_sensitive (mkUUID 1) (mkUUID 2) H1 H2 H12).
Defined.

(** ** The pretty-printer *)

Lemma print_NOT (x : RecGates string) (r : string) :
  (fold string_algebra (RNOT x) ++ r)%string
  = String "!" (String "(" (fold string_algebra x ++ String ")" r)).
Proof.
  cbn [fold fmap string_algebra append]. rewrite append_assoc. reflexivity.
Qed.

Lemma print_AND (x y : RecGates string) (r : string) :
  (fold string_algebra (RAND x y) ++ r)%string
  = String "("
      (fold string_algebra x
         ++ String "&" (fold string_algebra y ++ String ")" r)).
Proof.
  cbn [fold fmap string_algebra append]. rewrite !append_assoc.
  cbn [append]. rewrite append_assoc. reflexivity.
Qed.

Lemma print_OR (x y : RecGates string) (r : string) :
  (fold string_algebra (ROR x y) ++ r)%string
  = String "("
      (fold string_algebra x
         ++ String "|" (fold string_algebra y ++ String ")" r)).
Proof.
  cbn [fold fmap string_algebra append]. rewrite !append_assoc.
  cbn [append]. rewrite append_assoc. reflexivity.
Qed.

(** X11: the printed circuit is as long as its leaf texts together plus
    three characters for every [NOT], [AND] and [OR] node: the printer
    writes every node fully parenthesised and nothing else. *)
Theorem printed_length (t : RecGates string) :
  String.length (fold string_algebra t)
  = (list_sum (map String.length (leaves t)) + 3 * interior t)%nat.
Proof.
  induction t as [v | x IHx | x IHx y IHy | x IHx y IHy];
    cbn [fold fmap string_algebra leaves interior].
  - cbn [map list_sum fold_right].
    rewrite Nat.mul_0_r, !Nat.add_0_r. reflexivity.
  - cbn [append String.length]. rewrite length_append, IHx.
    cbn [String.length].
    generalize (list_sum (map String.length (leaves x))). intro n. lia.
  - cbn [append String.length]. rewrite !length_append, IHx.
    cbn [append String.length]. rewrite length_append, IHy.
    cbn [String.length]. rewrite map_app, list_sum_app.
    generalize (list_sum (map String.length (leaves x))),
      (list_sum (map String.length (leaves y))). intros n m. lia.
  - cbn [append String.length]. rewrite !length_append, IHx.
    cbn [append String.length]. rewrite length_append, IHy.
    cbn [String.length]. rewrite map_app, list_sum_app.
    generalize (list_sum (map String.length (leaves x))),
      (list_sum (map String.length (leaves y))). intros n m. lia.
Qed.

Lemma stops_not_open (c : ascii) (r : string) :
  stops (String c r) = true -> c <> "!"%char /\ c <> "("%char.
Proof.
  cbn [stops]. intro H. split; intro Hc; subst c; discriminate H.
Qed.

Lemma stops_special (c : ascii) (r : string) :
  stops (String c r) = true -> special c = true.
Proof.
  cbn [stops]. unfold special.
  destruct (Ascii.eqb c "&"), (Ascii.eqb c "|"), (Ascii.eqb c ")"),
    (Ascii.eqb c "!"), (Ascii.eqb c "("); cbn; congruence.
Qed.

Lemma plain_not_open (c : ascii) (s : string) :
  plain (String c s) = true -> c <> "!"%char /\ c <> "("%char.
Proof.
  cbn [plain]. intro H. apply andb_prop in H. destruct H as [H _].
  split; intro Hc; subst c; discriminate H.
Qed.

(** A plain text followed by a stop never begins with [!] or [(]. *)
Lemma plain_head (s r : string) (c : ascii) (rest : string) :
  plain s = true -> stops r = true ->
  (s ++ r)%string = String c rest -> c <> "!"%char /\ c <> "("%char.
Proof.
  intros Hs Hr Heq. destruct s as [| c' s']; cbn [append] in Heq.
  - subst r. apply (stops_not_open c rest Hr).
  - injection Heq as Hc _. subst c'. apply (plain_not_open c s' Hs).
Qed.

Lemma plain_split (s1 : string) :
  forall (s2 r1 r2 : string),
    plain s1 = true -> plain s2 = true ->
    stops r1 = true -> stops r2 = true ->
    (s1 ++ r1)%string = (s2 ++ r2)%string -> s1 = s2 /\ r1 = r2.
Proof.
  induction s1 as [| c1 s1 IH]; intros s2 r1 r2 H1 H2 Hr1 Hr2 Heq;
    destruct s2 as [| c2 s2]; cbn [append] in Heq.
  - split; [reflexivity | exact Heq].
  - subst r1. apply stops_special in Hr1.
    cbn [plain] in H2. rewrite Hr1 in H2. discriminate H2.
  - subst r2. apply stops_special in Hr2.
    cbn [plain] in H1. rewrite Hr2 in H1. discriminate H1.
  - injection Heq as Hc Heq. subst c2.
    cbn [plain] in H1, H2.
    apply andb_prop in H1. apply andb_prop in H2.
    destruct (IH s2 r1 r2) as [Hs Hr]; try tauto.
    split; [f_equal; exact Hs | exact Hr].
Qed.

Lemma print_injective_gen (t1 : RecGates string) :
  Forall (fun s => plain s = true) (leaves t1) ->
  forall (t2 : RecGates string) (r1 r2 : string),
    Forall (fun s => plain s = true) (leaves t2) ->
    stops r1 = true -> stops r2 = true ->
    (fold string_algebra t1 ++ r1)%string
    = (fold string_algebra t2 ++ r2)%string ->
    t1 = t2 /\ r1 = r2.
Proof.
  induction t1 as [s1 | x1 IHx | x1 IHx y1 IHy | x1 IHx y1 IHy];
    intros H1 t2 r1 r2 H2 Hr1 Hr2 Heq; cbn [leaves] in H1;
    destruct t2 as [s2 | x2 | x2 y2 | x2 y2]; cbn [leaves] in H2;
    rewrite ?print_NOT, ?print_AND, ?print_OR in Heq;
    try discriminate Heq;
    try (apply Forall_app in H1; destruct H1 as [H1x H1y]);
    try (apply Forall_app in H2; destruct H2 as [H2x H2y]).
  - (* leaf, leaf *)
    cbn [fold string_algebra] in Heq.
    inversion H1 as [| ? ? Hs1 _]; inversion H2 as [| ? ? Hs2 _]; subst.
    destruct (plain_split s1 s2 r1 r2 Hs1 Hs2 Hr1 Hr2 Heq) as [Hs Hr].
    split; [f_equal; exact Hs | exact Hr].
  - (* leaf, NOT *)
    cbn [fold string_algebra] in Heq. inversion H1 as [| ? ? Hs1 _]; subst.
    destruct (plain_head s1 r1 _ _ Hs1 Hr1 Heq) as [Hc _].
    exfalso. apply Hc. reflexivity.
  - (* leaf, AND *)
    cbn [fold string_algebra] in Heq. inversion H1 as [| ? ? Hs1 _]; subst.
    destruct (plain_head s1 r1 _ _ Hs1 Hr1 Heq) as [_ Hc].
    exfalso. apply Hc. reflexivity.
  - (* leaf, OR *)
    cbn [fold string_algebra] in Heq. inversion H1 as [| ? ? Hs1 _]; subst.
    destruct (plain_head s1 r1 _ _ Hs1 Hr1 Heq) as [_ Hc].
    exfalso. apply Hc. reflexivity.
  - (* NOT, leaf *)
    cbn [fold string_algebra] in Heq. inversion H2 as [| ? ? Hs2 _]; subst.
    symmetry in Heq.
    destruct (plain_head s2 r2 _ _ Hs2 Hr2 Heq) as [Hc _].
    exfalso. apply Hc. reflexivity.
  - (* NOT, NOT *)
    injection Heq as Heq.
    apply IHx in Heq; try assumption; try reflexivity.
    destruct Heq as [Hx Hr]. injection Hr as Hr.
    split; [f_equal; exact Hx | exact Hr].
  - (* AND, leaf *)
    cbn [fold string_algebra] in Heq. inversion H2 as [| ? ? Hs2 _]; subst.
    symmetry in Heq.
    destruct (plain_head s2 r2 _ _ Hs2 Hr2 Heq) as [_ Hc].
    exfalso. apply Hc. reflexivity.
  - (* AND, AND *)
    injection Heq as Heq.
    apply IHx in Heq; try assumption; try reflexivity.
    destruct Heq as [Hx Hr]. injection Hr as Hr.
    apply IHy in Hr; try assumption; try reflexivity.
    destruct Hr as [Hy Hr]. injection Hr as Hr.
    split; [f_equal; assumption | exact Hr].
  - (* AND, OR *)
    injection Heq as Heq.
    apply IHx in Heq; try assumption; try reflexivity.
    destruct Heq as [Hx Hr]. discriminate Hr.
  - (* OR, leaf *)
    cbn [fold string_algebra] in Heq. inversion H2 as [| ? ? Hs2 _]; subst.
    symmetry in Heq.
    destruct (plain_head s2 r2 _ _ Hs2 Hr2 Heq) as [_ Hc].
    exfalso. apply Hc. reflexivity.
  - (* OR, AND *)
    injection Heq as Heq.
    apply IHx in Heq; try assumption; try reflexivity.
    destruct Heq as [Hx Hr]. discriminate Hr.
  - (* OR, OR *)
    injection Heq as Heq.
    apply IHx in Heq; try assumption; try reflexivity.
    destruct Heq as [Hx Hr]. injection Hr as Hr.
    apply IHy in Hr; try assumption; try reflexivity.
    destruct Hr as [Hy Hr]. injection Hr as Hr.
    split; [f_equal; assumption | exact Hr].
Qed.

Lemma print_injective_plain (t1 t2 : RecGates string) :
  Forall (fun s => plain s = true) (leaves t1) ->
  Forall (fun s => plain s = true) (leaves t2) ->
  fold string_algebra t1 = fold string_algebra t2 ->
  t1 = t2.
Proof.
  intros H1 H2 Heq.
  destruct (print_injective_gen t1 H1 t2 ""%string ""%string H2
              eq_refl eq_refl) as [Ht _].
  - rewrite !append_nil_r. exact Heq.
  - exact Ht.
Qed.

(** X12: on circuits whose leaf texts contain none of the characters
    [!], [(], [)], [&], [|], the pretty-printer is injective: two circuits
    that print the same are the same circuit, leaf texts included. *)
Theorem print_injective (t1 t2 : RecGates string) :
  Forall (fun s => plain s = true) (leaves t1) ->
  Forall (fun s => plain s = true) (leaves t2) ->
  fold string_algebra t1 = fold string_algebra t2 ->
  t1 = t2.
Proof. apply print_injective_plain. Qed.

Lemma print_injective_witness :
  Forall (fun s => plain s = true)
         (leaves (RAND (RInput "a"%string) (RNOT (RInput "b"%string))))
  /\ fold string_algebra (RAND (RInput "a"%string) (RNOT (RInput "b"%string)))
     = "(a&!(b))"%string
  /\ RAND (RInput "a"%string) (RNOT (RInput "b"%string))
     = RAND (RInput "a"%string) (RNOT (RInput "b"%string)).
Proof.
  assert (H : Forall (fun s => plain s = true)
                     (leaves (RAND (RInput "a"%string)
                                   (RNOT (RInput "b"%string))))).
  { cbn [leaves app]. repeat (constructor; [reflexivity |]). constructor. }
  split; [exact H | split; [reflexivity |]].
  exact (print_injective _ _ H H eq_refl).
Defined.

(** Without the condition on leaf texts the printer is ambiguous. *)
Example print_ambiguous :
  fold string_algebra (RInput "(a&b)"%string)
  = fold string_algebra (RAND (RInput "a"%string) (RInput "b"%string)).
Proof. reflexivity. Qed.

Lemma map_inputs_injective {A B : Type} (f : A -> B) :
  (forall a1 a2 : A, f a1 = f a2 -> a1 = a2) ->
  forall t1 t2 : RecGates A,
    map_inputs f t1 = map_inputs f t2 -> t1 = t2.
Proof.
  intros Hf t1.
  induction t1 as [v | x IHx | x IHx y IHy | x IHx y IHy];
    intros [v2 | x2 | x2 y2 | x2 y2] Heq;
    cbn [map_inputs fmap as_tree] in Heq; try discriminate Heq;
    injection Heq as Heq; f_equal; auto.
Qed.

Lemma leaves_plain {A : Type} (f : A -> string) (t : RecGates A) :
  (forall a : A, plain (f a) = true) ->
  Forall (fun s => plain s = true) (leaves (map_inputs f t)).
Proof.
  intro Hf. rewrite map_inputs_leaves. apply Forall_map, Forall_forall.
  intros a _. apply Hf.
Qed.

(** X13: what [main] prints as "String Algebra", the fold of the printer
    over the circuit with [str] mapped over its boolean leaves, determines
    the circuit: two boolean circuits with the same printed text are equal. *)
Theorem printed_bool_circuit_injective (t1 t2 : RecGates bool) :
  fold string_algebra (map_inputs str_bool t1)
  = fold string_algebra (map_inputs str_bool t2) ->
  t1 = t2.
Proof.
  intro Heq. apply print_injective_plain in Heq.
  - revert Heq. apply map_inputs_injective.
    intros [] [] H; try reflexivity; discriminate H.
  - apply leaves_plain. intros []; reflexivity.
  - apply leaves_plain. intros []; reflexivity.
Qed.

Lemma printed_bool_circuit_injective_witness :
  fold string_algebra (map_inputs str_bool (example false true false))
  = ("(((False&((False&True)|False))|!(!(False)))"
       ++ "&(!((False&((False&True)|False)))|!(False)))")%string
  /\ example false true false = example false true false.
Proof.
  split; [vm_compute; reflexivity |].
  exact (printed_bool_circuit_injective _ _ eq_refl).
Defined.

(** ** Printing identified values *)

(** The tag that [Uniq.__repr__] shows: the four leading digits. *)
Lemma repr_tag (d : nat -> ascii) :
  substring 0 4 (str_of_digits d)
  = String (d 31%nat) (String (d 30%nat) (String (d 29%nat)
      (String (d 28%nat) EmptyString))).
Proof. cbv. reflexivity. Qed.

Lemma hex_digit_plain (n : Z) : 0 <= n < 16 -> special (hex_digit n) = false.
Proof.
  intro H. apply negb_true_iff.
  apply (nibble_cases (fun n => negb (special (hex_digit n))));
    [vm_compute; reflexivity | exact H].
Qed.

Lemma digit_plain (u : UUID) (k : nat) : special (digit u k) = false.
Proof. unfold digit. apply hex_digit_plain, nibble_range. Qed.

Lemma plain_append (s1 s2 : string) :
  plain s1 = true -> plain s2 = true -> plain (s1 ++ s2) = true.
Proof.
  intros H1 H2. induction s1 as [| c s1 IH]; cbn [append plain] in *.
  - exact H2.
  - apply andb_prop in H1. destruct H1 as [Hc H1].
    rewrite Hc, IH by exact H1. reflexivity.
Qed.

Lemma Uniq_repr_plain {A : Type} (fmt : A -> string) (u : Uniq A) :
  plain (fmt (unwrapped u)) = true -> plain (Uniq_repr fmt u) = true.
Proof.
  intro H. unfold Uniq_repr. apply plain_append; [exact H |].
  rewrite str_as_digits, repr_tag. cbn [append plain].
  rewrite !digit_plain. reflexivity.
Qed.

Lemma map_inputs_factor {A B C : Type} (f : A -> B) (h : A -> C) :
  (forall a1 a2 : A, f a1 = f a2 -> h a1 = h a2) ->
  forall t1 t2 : RecGates A,
    map_inputs f t1 = map_inputs f t2 -> map_inputs h t1 = map_inputs h t2.
Proof.
  intros Hf t1.
  induction t1 as [v | x IHx | x IHx y IHy | x IHx y IHy];
    intros [v2 | x2 | x2 y2 | x2 y2] Heq;
    cbn [map_inputs fmap as_tree] in *; try discriminate Heq;
    injection Heq as Heq; f_equal; auto.
Qed.

Lemma Uniq_repr_payload (u1 u2 : Uniq bool) :
  Uniq_repr str_bool u1 = Uniq_repr str_bool u2 ->
  unwrapped u1 = unwrapped u2.
Proof.
  destruct u1 as [[] i1], u2 as [[] i2]; unfold Uniq_repr;
    cbn [unwrapped str_bool append]; intro H;
    try reflexivity; discriminate H.
Qed.

(** X14: what [main] prints as "Uniq inputs", the printer folded over
    leaves shown as [payload#tag], determines the circuit and the boolean
    payload of every leaf, whatever identities the leaves drew. *)
Theorem printed_uniq_inputs_determine_circuit (t1 t2 : RecGates (Uniq bool)) :
  fold string_algebra (map_inputs (Uniq_repr str_bool) t1)
  = fold string_algebra (map_inputs (Uniq_repr str_bool) t2) ->
  map_inputs unwrapped t1 = map_inputs unwrapped t2.
Proof.
  intro Heq. apply print_injective_plain in Heq.
  - revert Heq. apply map_inputs_factor. apply Uniq_repr_payload.
  - apply leaves_plain. intro u. apply Uniq_repr_plain.
    destruct (unwrapped u); reflexivity.
  - apply leaves_plain. intro u. apply Uniq_repr_plain.
    destruct (unwrapped u); reflexivity.
Qed.

Lemma printed_uniq_inputs_determine_circuit_witness :
  fold string_algebra
    (map_inputs (Uniq_repr str_bool)
       (RNOT (RInput (mkUniq true (mkUUID 302240678275694148452352)))))
  = "!(True#0000)"%string
  /\ map_inputs unwrapped
       (RNOT (RInput (mkUniq true (mkUUID 302240678275694148452352))))
     = RNOT (RInput true).
Proof.
  split; [vm_compute; reflexivity |].
  exact (printed_uniq_inputs_determine_circuit
           (RNOT (RInput (mkUniq true (mkUUID 302240678275694148452352))))
           (RNOT (RInput (mkUniq true (mkUUID 302240678275694148452352))))
           eq_refl).
Defined.

Lemma digit_top (u : UUID) (j : nat) :
  digit u (28 + j)
  = hex_digit (Z.land (Z.shiftr (Z.shiftr (int u) 112) (4 * Z.of_nat j)) 15).
Proof.
  unfold digit. rewrite Z.shiftr_shiftr by lia.
  replace (4 * Z.of_nat (28 + j)) with (112 + 4 * Z.of_nat j) by lia.
  reflexivity.
Qed.

(** X15: [Uniq.__repr__] shows the payload, a [#], and four hexadecimal
    digits that depend on the sixteen leading bits of the identity only:
    two values with equal payloads whose identities share those bits print
    the same, and the text is five characters longer than the payload's. *)
Theorem Uniq_repr_shows_16_bits {A : Type} (fmt : A -> string)
        (u1 u2 : Uniq A) :
  unwrapped u1 = unwrapped u2 ->
  Z.shiftr (int (uuid u1)) 112 = Z.shiftr (int (uuid u2)) 112 ->
  Uniq_repr fmt u1 = Uniq_repr fmt u2
  /\ String.length (Uniq_repr fmt u1)
     = (String.length (fmt (unwrapped u1)) + 5)%nat.
Proof.
  intros Hp Hi. unfold Uniq_repr.
  rewrite !str_as_digits, !repr_tag.
  change 31%nat with (28 + 3)%nat. change 30%nat with (28 + 2)%nat.
  change 29%nat with (28 + 1)%nat. change 28%nat with (28 + 0)%nat.
  rewrite !digit_top, Hp, Hi. split; [reflexivity |].
  rewrite length_append. reflexivity.
Qed.

Lemma Uniq_repr_shows_16_bits_witness :
  unwrapped (mkUniq true (mkUUID 302240678275694148452352))
  = unwrapped (mkUniq true (mkUUID 1))
  /\ Z.shiftr (int (uuid (mkUniq true (mkUUID 302240678275694148452352)))) 112
     = Z.shiftr (int (uuid (mkUniq true (mkUUID 1)))) 112
  /\ Uniq_repr str_bool (mkUniq true (mkUUID 302240678275694148452352))
     = Uniq_repr str_bool (mkUniq true (mkUUID 1)).
Proof.
  split; [reflexivity | split; [reflexivity |]].
  exact (proj1 (Uniq_repr_shows_16_bits str_bool
                  (mkUniq true (mkUUID 302240678275694148452352))
                  (mkUniq true (mkUUID 1)) eq_refl eq_refl)).
Defined.

(** ** The local-gradient oracle and the relaxation *)

(** X16: at every corner of the unit square the local-gradient oracle
    returns the differences of the continuous relaxation across the unit
    interval in each operand: for [AND] and [OR] the pair
    [(f(1, y) - f(0, y), f(x, 1) - f(x, 0))], the sensitivity to the first
    operand and then to the second, and for [NOT] and [Input] the integers
    [-1] and [1] whose floats are [f(1) - f(0)]. *)
Theorem derivative_is_unit_difference (bx by_ : bool) :
  derivative_algebra (AND (bool_to_float bx) (bool_to_float by_))
  = DPair (sub (float_algebra (AND one (bool_to_float by_)))
               (float_algebra (AND zero (bool_to_float by_))))
          (sub (float_algebra (AND (bool_to_float bx) one))
               (float_algebra (AND (bool_to_float bx) zero)))
  /\ derivative_algebra (OR (bool_to_float bx) (bool_to_float by_))
     = DPair (sub (float_algebra (OR one (bool_to_float by_)))
                  (float_algebra (OR zero (bool_to_float by_))))
             (sub (float_algebra (OR (bool_to_float bx) one))
                  (float_algebra (OR (bool_to_float bx) zero)))
  /\ derivative_algebra (NOT (bool_to_float bx)) = DInt (-1)
  /\ of_int (-1) = sub (float_algebra (NOT one)) (float_algebra (NOT zero))
  /\ derivative_algebra (Input (bool_to_float bx)) = DInt 1
  /\ of_int 1 = sub (float_algebra (Input one)) (float_algebra (Input zero)).
Proof.
  destruct bx, by_; vm_compute; repeat split.
Qed.

(** ** Wrapping the leaves and folding the lifted algebra *)

Lemma map_inputsM_draw {A : Type} (urandom : nat -> SHA1.bytes)
      (t : RecGates A) :
  forall n : nat,
    exists t' : RecGates (Uniq A),
      map_inputsM (Uniq_draw urandom) t n
      = (t', (n + List.length (leaves t))%nat)
      /\ map_inputs unwrapped t' = t
      /\ map uuid (leaves t')
         = map (fun i => uuid4 (urandom i))
               (seq n (List.length (leaves t))).
Proof.
  induction t as [v | x IHx | x IHx y IHy | x IHx y IHy]; intro n;
    cbn [map_inputsM leaves]; unfold fmapM, bind, ret.
  - exists (RInput (Uniq_fresh (urandom n) v)).
    unfold Uniq_draw. cbn [List.length]. rewrite Nat.add_1_r.
    repeat split.
  - destruct (IHx n) as [x' [Hx [Hux Hix]]]. rewrite Hx.
    exists (RNOT x'). cbn [as_tree map_inputs fmap leaves].
    rewrite Hux. repeat split. exact Hix.
  - destruct (IHx n) as [x' [Hx [Hux Hix]]]. rewrite Hx.
    destruct (IHy (n + List.length (leaves x))%nat) as [y' [Hy [Huy Hiy]]].
    rewrite Hy. exists (RAND x' y').
    cbn [as_tree map_inputs fmap leaves].
    rewrite Hux, Huy, length_app, seq_app, !map_app, Hix, Hiy, Nat.add_assoc.
    repeat split.
  - destruct (IHx n) as [x' [Hx [Hux Hix]]]. rewrite Hx.
    destruct (IHy (n + List.length (leaves x))%nat) as [y' [Hy [Huy Hiy]]].
    rewrite Hy. exists (ROR x' y').
    cbn [as_tree map_inputs fmap leaves].
    rewrite Hux, Huy, length_app, seq_app, !map_app, Hix, Hiy, Nat.add_assoc.
    repeat split.
Qed.

(** X17: the pipeline [fold(uniquify_algebra(alg), map_inputs(Uniq, t))] of
    [main].  Wrapping draws one fresh identity per leaf occurrence, left to
    right, and changes neither the shape nor the payloads; the lifted fold
    of the wrapped tree then has the payload of the plain fold of [t],
    whatever bytes were drawn. *)
Theorem uniquified_pipeline {A : Type} (algebra : Gates A -> A)
        (urandom : nat -> SHA1.bytes) (t : RecGates A) (n : nat) :
  snd (map_inputsM (Uniq_draw urandom) t n)
  = (n + List.length (leaves t))%nat
  /\ map_inputs unwrapped (fst (map_inputsM (Uniq_draw urandom) t n)) = t
  /\ map uuid (leaves (fst (map_inputsM (Uniq_draw urandom) t n)))
     = map (fun i => uuid4 (urandom i)) (seq n (List.length (leaves t)))
  /\ unwrapped (fold (uniquify_algebra algebra)
                  (fst (map_inputsM (Uniq_draw urandom) t n)))
     = fold algebra t.
Proof.
  destruct (map_inputsM_draw urandom t n) as [t' [Ht [Hu Hi]]].
  rewrite Ht. cbn [fst snd]. repeat split; try assumption.
  rewrite fold_uniquify_unwrapped, Hu. reflexivity.
Qed.

(** The two occurrences of the shared leaf [x_input] in [example] are
    wrapped separately and get the first and the second draw. *)
Example example_shared_leaf_drawn_twice (urandom : nat -> SHA1.bytes) :
  firstn 2 (map uuid
              (leaves (fst (map_inputsM (Uniq_draw urandom)
                              (example false true false) 0%nat))))
  = [uuid4 (urandom 0%nat); uuid4 (urandom 1%nat)].
Proof. reflexivity. Qed.
